(** * Shallow embedding of the reasoning-stream formatter of
    [1-multimodel_chat_clean_stream.py] (and of the chat loops of
    [1-chat.py] and the streaming front-end).

    A Python [str] is a sequence of code points, modelled as [list Z].
    String literals are written as Rocq (UTF-8) strings and decoded with
    [utf8]. *)

From Stdlib Require Import ZArith List Bool Ascii String Lia Permutation.
Import ListNotations.
Local Open Scope Z_scope.
Local Open Scope list_scope.

Module Py.

Definition str := list Z.

(** Exceptions: a computation that may raise returns [None], and [let*]
    propagates the exception to the caller. *)
Notation "'let*' x ':=' m 'in' f" :=
  (match m with Some x => f | None => None end)
  (at level 200, x name, m at level 100, f at level 200, right associativity).

Definition byte (a : ascii) : Z := Z.of_nat (nat_of_ascii a).

(** UTF-8 decoding of a Rocq string literal into code points. *)
Fixpoint utf8 (s : string) : str :=
  match s with
  | EmptyString => []
  | String a r =>
    let b := byte a in
    if b <? 128 then b :: utf8 r
    else if b <? 224 then
      match r with
      | String a1 r1 => (Z.land b 31 * 64 + Z.land (byte a1) 63) :: utf8 r1
      | EmptyString => []
      end
    else if b <? 240 then
      match r with
      | String a1 (String a2 r2) =>
          (Z.land b 15 * 4096 + Z.land (byte a1) 63 * 64
           + Z.land (byte a2) 63) :: utf8 r2
      | _ => []
      end
    else
      match r with
      | String a1 (String a2 (String a3 r3)) =>
          (Z.land b 7 * 262144 + Z.land (byte a1) 63 * 4096
           + Z.land (byte a2) 63 * 64 + Z.land (byte a3) 63) :: utf8 r3
      | _ => []
      end
  end.

Definition nl : str := [10].

(** [str.isspace] / the [\s] class of [re] on [str] patterns. *)
Definition is_space (c : Z) : bool :=
  ((9 <=? c) && (c <=? 13)) || ((28 <=? c) && (c <=? 32)) || (c =? 133)
  || (c =? 160) || (c =? 5760) || ((8192 <=? c) && (c <=? 8202))
  || (c =? 8232) || (c =? 8233) || (c =? 8239) || (c =? 8287)
  || (c =? 12288).

(** [[A-Za-z]] *)
Definition is_letter (c : Z) : bool :=
  ((65 <=? c) && (c <=? 90)) || ((97 <=? c) && (c <=? 122)).

Fixpoint prefixb (p s : str) : bool :=
  match p, s with
  | [], _ => true
  | a :: p', b :: s' => (a =? b) && prefixb p' s'
  | _ :: _, [] => false
  end.

(** [p in s] *)
Fixpoint contains (p s : str) : bool :=
  prefixb p s || match s with [] => false | _ :: t => contains p t end.

(** Split at the first occurrence of [p]: text before it and text after it. *)
Fixpoint break_at (p s : str) : option (str * str) :=
  if prefixb p s then Some ([], skipn (List.length p) s)
  else match s with
       | [] => None
       | c :: t =>
           match break_at p t with
           | Some (a, b) => Some (c :: a, b)
           | None => None
           end
       end.

(** [s.split(p, 1)] *)
Definition split_once (p s : str) : list str :=
  match break_at p s with
  | Some (a, b) => [a; b]
  | None => [s]
  end.

(** [s.split(p)] for a non-empty separator [p]. *)
Fixpoint split_fuel (fuel : nat) (p s : str) : list str :=
  match fuel with
  | O => [s]
  | S n =>
      match break_at p s with
      | Some (a, b) => a :: split_fuel n p b
      | None => [s]
      end
  end.

Definition split (p s : str) : list str := split_fuel (S (List.length s)) p s.

(** [s.split(c)] for a single-character separator. *)
Fixpoint split_char (c : Z) (s : str) : list str :=
  match s with
  | [] => [[]]
  | x :: t =>
      if x =? c then [] :: split_char c t
      else match split_char c t with
           | w :: ws => (x :: w) :: ws
           | [] => [[x]]
           end
  end.

(** [sep.join(l)] *)
Fixpoint join (sep : str) (l : list str) : str :=
  match l with
  | [] => []
  | [w] => w
  | w :: ws => w ++ sep ++ join sep ws
  end.

Fixpoint lstrip (s : str) : str :=
  match s with
  | [] => []
  | c :: t => if is_space c then lstrip t else s
  end.

(** [s.strip()] *)
Definition strip (s : str) : str := rev (lstrip (rev (lstrip s))).

(** Truthiness of a [str]. *)
Definition nonempty (s : str) : bool :=
  match s with [] => false | _ => true end.

Fixpoint str_eqb (a b : str) : bool :=
  match a, b with
  | [], [] => true
  | x :: a', y :: b' => (x =? y) && str_eqb a' b'
  | _, _ => false
  end.

(** Longest prefix whose characters all satisfy [f], and the rest. *)
Fixpoint span (f : Z -> bool) (s : str) : str * str :=
  match s with
  | c :: t => if f c then let '(a, b) := span f t in (c :: a, b) else ([], s)
  | [] => ([], [])
  end.

(** [re.sub(p, g, s)] for a pattern [p] that is a non-empty literal:
    leftmost matches, scanned left to right, the text of a match skipped
    ([skip] counts the characters of the current match still to pass). *)
Fixpoint sub_lit_go (p g : str) (skip : nat) (s : str) : str :=
  match s with
  | [] => []
  | c :: t =>
      match skip with
      | S k => sub_lit_go p g k t
      | O => if prefixb p s then g ++ sub_lit_go p g (pred (List.length p)) t
             else c :: sub_lit_go p g O t
      end
  end.

Definition re_sub_lit (p g s : str) : str := sub_lit_go p g O s.

End Py.

Import Py.

Module Latex.

Definition u := utf8.

(** The substitution table of [replace_math_symbols], in source order. *)
Definition math_symbols : list (str * str) :=
  [ (u "\cup", u "∪"); (u "\cap", u "∩"); (u "\subset", u "⊂");
    (u "\supset", u "⊃"); (u "\in", u "∈"); (u "\notin", u "∉");
    (u "\emptyset", u "∅"); (u "\forall", u "∀"); (u "\exists", u "∃");
    (u "\neg", u "¬"); (u "\wedge", u "∧"); (u "\vee", u "∨");
    (u "\leq", u "≤"); (u "\geq", u "≥"); (u "\neq", u "≠");
    (u "\approx", u "≈"); (u "\cdot", u "·"); (u "\times", u "×");
    (u "\div", u "÷"); (u "\pm", u "±"); (u "\infty", u "∞");
    (u "\sum", u "∑"); (u "\prod", u "∏"); (u "\rightarrow", u "→");
    (u "\leftarrow", u "←"); (u "\leftrightarrow", u "↔") ].

(** Apply a list of literal substitutions in order. *)
Definition apply_table (tbl : list (str * str)) (expr : str) : str :=
  fold_left (fun e '(p, g) => re_sub_lit p g e) tbl expr.

Definition BAR : Z := 124.

(** [re.sub(r'\|([^|]+)\|', 'size(\\1)', expr)] *)
Fixpoint size_sub_fuel (fuel : nat) (s : str) : str :=
  match fuel with
  | O => s
  | S n =>
      match s with
      | [] => []
      | c :: t =>
          if c =? BAR then
            let '(grp, rest) := span (fun x => negb (x =? BAR)) t in
            match grp, rest with
            | _ :: _, b :: rest' =>
                if b =? BAR then u "size(" ++ grp ++ u ")" ++ size_sub_fuel n rest'
                else c :: size_sub_fuel n t
            | _, _ => c :: size_sub_fuel n t
            end
          else c :: size_sub_fuel n t
      end
  end.

Definition size_sub (s : str) : str := size_sub_fuel (List.length s) s.

(** The argument of [replace_math_symbols]: a [re.Match] object (with its
    [group(1)]) or a plain [str]. *)
Inductive match_arg := MatchObj (group1 : str) | PyStr (s : str).

(** Lines 39-67: the substitutions applied to [expr]. *)
Definition rewrite_symbols (expr : str) : str :=
  size_sub (apply_table math_symbols expr).

(** [replace_math_symbols(match)]: line 38 reads [match.group(1)], which
    raises AttributeError ([None]) when [match] is a [str]. *)
Definition replace_math_symbols (m : match_arg) : option str :=
  match m with
  | MatchObj expr => Some (rewrite_symbols expr)
  | PyStr _ => None
  end.

Definition latex_wrap (e : str) : str := u ":latex:`" ++ e ++ u "`".

Definition DD : str := u "$$".

(** Lazy [(.*?)\$\$] without DOTALL: the text up to the first [$$], or no
    match when a newline or the end of the text comes first. *)
Fixpoint inline_close (r : str) : option (str * str) :=
  match r with
  | [] => None
  | c :: t =>
      if prefixb DD r then Some ([], skipn 2 r)
      else if c =? 10 then None
      else match inline_close t with
           | Some (a, b) => Some (c :: a, b)
           | None => None
           end
  end.

(** [re.sub(r'\$\$(.*?)\$\$', lambda m: ':latex:`...`', text)] (line 71):
    the lambda passes the [str] [m.group(1)] to [replace_math_symbols]. *)
Fixpoint sub_inline_fuel (fuel : nat) (s : str) : option str :=
  match fuel with
  | O => Some s
  | S n =>
      match s with
      | [] => Some []
      | c :: t =>
          if prefixb DD s then
            match inline_close (skipn 2 s) with
            | Some (grp, rest) =>
                let* r := replace_math_symbols (PyStr grp) in
                let* t' := sub_inline_fuel n rest in
                Some (latex_wrap r ++ t')
            | None => let* t' := sub_inline_fuel n t in Some (c :: t')
            end
          else let* t' := sub_inline_fuel n t in Some (c :: t')
      end
  end.

Definition sub_inline (s : str) : option str := sub_inline_fuel (List.length s) s.

(** Loop state of the multiline pass: [formatted_lines], [in_latex_block],
    [latex_content]. *)
Record block_state := {
  formatted_lines : list str;
  in_latex_block : bool;
  latex_content : list str }.

(** One iteration of the loop of lines 76-93; at a closing fence, line 86
    passes the [str] [latex_str] to [replace_math_symbols]. *)
Definition block_step (st : block_state) (line : str) : option block_state :=
  if str_eqb (strip line) DD && negb (in_latex_block st) then
    Some {| formatted_lines := formatted_lines st; in_latex_block := true;
            latex_content := latex_content st |}
  else if str_eqb (strip line) DD && in_latex_block st then
    let latex_str := join nl (latex_content st) in
    let* r := replace_math_symbols (PyStr latex_str) in
    Some {| formatted_lines := formatted_lines st ++ [latex_wrap r];
            in_latex_block := false; latex_content := [] |}
  else if in_latex_block st then
    Some {| formatted_lines := formatted_lines st; in_latex_block := true;
            latex_content := latex_content st ++ [line] |}
  else
    Some {| formatted_lines := formatted_lines st ++ [line];
            in_latex_block := false; latex_content := latex_content st |}.

(** The [for line in lines] loop; an exception leaves it. *)
Fixpoint block_loop (lines : list str) (st : block_state) : option block_state :=
  match lines with
  | [] => Some st
  | line :: lines => let* st := block_step st line in block_loop lines st
  end.

Definition format_latex (text : str) : option str :=
  let* text := sub_inline text in
  let lines := split_char 10 text in
  let* st := block_loop lines
               {| formatted_lines := []; in_latex_block := false;
                  latex_content := [] |} in
  Some (join nl (formatted_lines st)).

(** [re.sub(r'size\(([^)]+)\)', lambda m: f"the size of {m.group(1)}", text)] *)
Fixpoint size_phrase_fuel (fuel : nat) (s : str) : str :=
  match fuel with
  | O => s
  | S n =>
      match s with
      | [] => []
      | c :: t =>
          if prefixb (u "size(") s then
            let '(grp, rest) := span (fun x => negb (x =? 41)) (skipn 5 s) in
            match grp, rest with
            | _ :: _, b :: rest' =>
                if b =? 41 then u "the size of " ++ grp ++ size_phrase_fuel n rest'
                else c :: size_phrase_fuel n t
            | _, _ => c :: size_phrase_fuel n t
            end
          else c :: size_phrase_fuel n t
      end
  end.

(** [re.sub(r'([A-Za-z])\s*G\s*([A-Za-z])', r'\1 W \2', text)] for a glyph
    [G] and its phrase [W] (given with its surrounding spaces). *)
Fixpoint glyph_sub_fuel (fuel : nat) (g : Z) (w : str) (s : str) : str :=
  match fuel with
  | O => s
  | S n =>
      match s with
      | [] => []
      | c :: t =>
          if is_letter c then
            match snd (span is_space t) with
            | x :: r2 =>
                if x =? g then
                  match snd (span is_space r2) with
                  | l2 :: rest =>
                      if is_letter l2 then c :: w ++ [l2] ++ glyph_sub_fuel n g w rest
                      else c :: glyph_sub_fuel n g w t
                  | [] => c :: glyph_sub_fuel n g w t
                  end
                else c :: glyph_sub_fuel n g w t
            | [] => c :: glyph_sub_fuel n g w t
            end
          else c :: glyph_sub_fuel n g w t
      end
  end.

Definition glyph_sub (g : Z) (w : str) (s : str) : str :=
  glyph_sub_fuel (List.length s) g w s.

Definition glyph (s : string) : Z := hd 0 (u s).

Definition process_math_expressions (text : str) : str :=
  let text := size_phrase_fuel (List.length text) text in
  let text := glyph_sub (glyph "∪") (u " union ") text in
  let text := glyph_sub (glyph "∩") (u " intersect ") text in
  let text := glyph_sub (glyph "⊂") (u " is a subset of ") text in
  let text := glyph_sub (glyph "⊃") (u " is a superset of ") text in
  let text := glyph_sub (glyph "∈") (u " is an element of ") text in
  let text := glyph_sub (glyph "∉") (u " is not an element of ") text in
  text.

End Latex.

Import Latex.

Module Format.

Definition BEGIN_THOUGHT : str := u "<|begin_of_thought|>".
Definition END_THOUGHT : str := u "<|end_of_thought|>".
Definition BEGIN_SOLUTION : str := u "<|begin_of_solution|>".
Definition END_SOLUTION : str := u "<|end_of_solution|>".

Definition THOUGHT_HEADING : str :=
  u "### Nova Lite Reasoning for you - I am not perfect, but will try my best🫡" ++ nl ++ nl.
Definition SOLUTION_HEADING : str := u "### Solution" ++ nl ++ nl.
Definition WARNING_TEXT : str :=
  u "⚠️ *Note: Sorry I could not complete my thought process😕. Out of Bedrock tokens. Some sections may be incomplete.*".
Definition WARNING : str := nl ++ nl ++ WARNING_TEXT.
Definition CURSOR : str := u "▌".

Definition check_missing_tags (text : str) : bool :=
  let begin_thought := contains BEGIN_THOUGHT text in
  let end_thought := contains END_THOUGHT text in
  let begin_solution := contains BEGIN_SOLUTION text in
  let end_solution := contains END_SOLUTION text in
  let missing_thought := begin_thought && negb end_thought in
  let missing_solution := begin_solution && negb end_solution in
  missing_thought || missing_solution.

(** Lazy [(.*?)(?:END|$)] with DOTALL, from a suffix of the text: stops at
    the first [END], at the end of the text, or before a final newline. *)
Fixpoint lazy_until (e r : str) : str :=
  match r with
  | [] => []
  | c :: t =>
      if prefixb e r then []
      else if (c =? 10) && negb (nonempty t) then []
      else c :: lazy_until e t
  end.

(** [re.search(BEGIN + r'(.*?)(?:' + END + r'|$)', text, re.DOTALL)]:
    [Some group(1)] or [None]. The match starts at the first [BEGIN]. *)
Definition section_search (b e text : str) : option str :=
  match break_at b text with
  | Some (_, rest) => Some (lazy_until e rest)
  | None => None
  end.

(** Lines 128-134 of [format_streaming_response] (and 143-149 for the
    solution): the text after the first begin marker, cut at the first end
    marker when one follows; the flag tells whether the end marker was found. *)
Definition stream_section (b e s : str) : option (str * bool) :=
  let parts := split_once b s in
  if Nat.ltb 1 (List.length parts) then
    let content := nth 1 parts [] in
    if contains e content then Some (hd [] (split e content), true)
    else Some (content, false)
  else None.

(** The thought block of [format_streaming_response] (lines 125-137):
    the text formatted so far and [current_text]. *)
Definition stream_thought (text : str) : option (str * str) :=
  if contains BEGIN_THOUGHT text then
    let formatted_text := THOUGHT_HEADING in
    match stream_section BEGIN_THOUGHT END_THOUGHT text with
    | Some (thought_content, closed) =>
        let current_text :=
          if closed then last (split_once END_THOUGHT text) [] else text in
        let* fl := format_latex thought_content in
        let formatted_text := formatted_text ++ fl ++ nl ++ nl in
        Some (process_math_expressions formatted_text, current_text)
    | None => Some (formatted_text, text)
    end
  else Some ([], text).

(** The solution block (lines 140-151), on [current_text]. *)
Definition stream_solution (formatted_text current_text : str) : option str :=
  if contains BEGIN_SOLUTION current_text then
    let formatted_text := formatted_text ++ SOLUTION_HEADING in
    match stream_section BEGIN_SOLUTION END_SOLUTION current_text with
    | Some (solution_content, _) =>
        let* fl := format_latex solution_content in
        let formatted_text := formatted_text ++ fl in
        Some (process_math_expressions formatted_text)
    | None => Some formatted_text
    end
  else Some formatted_text.

Definition format_streaming_response (text : str) (is_reasoning_prompt : bool)
  : option str :=
  if negb is_reasoning_prompt then
    let* formatted_text := format_latex text in
    Some (process_math_expressions formatted_text ++ CURSOR)
  else
    match stream_thought text with
    | None => None
    | Some (formatted_text, current_text) =>
        let* formatted_text := stream_solution formatted_text current_text in
        if negb (nonempty formatted_text) then
          let* formatted_text := format_latex current_text in
          Some (process_math_expressions formatted_text ++ CURSOR)
        else Some (strip formatted_text ++ CURSOR)
    end.

(** The thought content extracted by [format_final_response] (line 170). *)
Definition final_thought_content (text : str) : str :=
  match section_search BEGIN_THOUGHT END_THOUGHT text with
  | Some g => strip g
  | None => []
  end.

(** The solution content extracted by [format_final_response] (line 174). *)
Definition final_solution_content (text : str) : str :=
  match section_search BEGIN_SOLUTION END_SOLUTION text with
  | Some g => strip g
  | None => []
  end.

(** [formatted_text] of [format_final_response] before the warning
    (lines 177-185): the thought block, then the solution block. *)
Definition final_sections (text : str) : option str :=
  let thought_content := final_thought_content text in
  let solution_content := final_solution_content text in
  let* thought_block :=
    if nonempty thought_content then
      let* formatted_thought := format_latex thought_content in
      Some (THOUGHT_HEADING ++ process_math_expressions formatted_thought ++ nl ++ nl)
    else Some [] in
  let* solution_block :=
    if nonempty solution_content then
      let* formatted_solution := format_latex solution_content in
      Some (SOLUTION_HEADING ++ process_math_expressions formatted_solution)
    else Some [] in
  Some (thought_block ++ solution_block).

Definition format_final_response (text : str) (is_reasoning_prompt is_stream_complete : bool)
  : option str :=
  if negb is_reasoning_prompt then
    let* formatted_text := format_latex text in
    Some (process_math_expressions formatted_text)
  else
    let* formatted_text := final_sections text in
    let formatted_text :=
      if is_reasoning_prompt && is_stream_complete && check_missing_tags text
      then formatted_text ++ WARNING else formatted_text in
    let* formatted_text :=
      if negb (nonempty formatted_text) then
        let* formatted_text := format_latex text in
        Some (process_math_expressions formatted_text)
      else Some formatted_text in
    Some (strip formatted_text).

End Format.

Import Format.

(** * The chat front-ends: the per-session conversation and one submission. *)
Module Chat.

Inductive role := User | Assistant.

Record turn := { role_of : role; content : str }.

(** [st.session_state.messages] and the inline [st.error] messages shown. *)
Record session := { messages : list turn; shown_errors : list str }.

(** The reply of [client.converse_stream]: the text deltas delivered, and the
    message of the exception raised after them, if any. *)
Record stream_reply := { deltas : list str; raises : option str }.

(** Streaming placeholder and [full_response] of the caller's loop
    (lines 349-365 of [1-multimodel_chat_clean_stream.py]). *)
Record ui := { placeholder : option str; full_response : str }.

(** One iteration of the caller's loop. An exception of
    [format_streaming_response] is raised in the caller, outside the
    generator's [try], and aborts the script run ([None]). *)
Definition loop_step (is_reasoning_prompt : bool) (st : ui) (chunk : str) : option ui :=
  if nonempty chunk then
    let full := full_response st ++ chunk in
    let* formatted_response := format_streaming_response full is_reasoning_prompt in
    Some {| placeholder := Some formatted_response; full_response := full |}
  else Some st.

Fixpoint loop_from (is_reasoning_prompt : bool) (chunks : list str) (st : ui) : option ui :=
  match chunks with
  | [] => Some st
  | chunk :: chunks =>
      let* st := loop_step is_reasoning_prompt st chunk in
      loop_from is_reasoning_prompt chunks st
  end.

Definition stream_loop (is_reasoning_prompt : bool) (chunks : list str) : option ui :=
  loop_from is_reasoning_prompt chunks {| placeholder := None; full_response := [] |}.

(** What the assistant bubble shows after the stream: the placeholder of the
    last fragment, then the final response; [None] when the run aborts. *)
Definition stream_render (is_reasoning_prompt : bool) (chunks : list str)
  : option (option str * str) :=
  let* st := stream_loop is_reasoning_prompt chunks in
  let* final := format_final_response (full_response st) is_reasoning_prompt true in
  Some (placeholder st, final).

(** One submission of the streaming front-end (lines 321-373): the user turn,
    the generator [stream_response] (whose [except] shows the error and ends
    the iteration once the caller asks for the fragment after the last
    one), the final formatting and the assistant turn. The result is the
    session state kept by the run; an exception of a formatter aborts the
    run, which keeps the user turn already appended. *)
Definition submit_stream (is_reasoning_prompt : bool) (prompt : str)
    (reply : stream_reply) (s : session) : session :=
  let msgs := messages s ++ [{| role_of := User; content := prompt |}] in
  match stream_loop is_reasoning_prompt (deltas reply) with
  | None => {| messages := msgs; shown_errors := shown_errors s |}
  | Some st =>
      let errs :=
        match raises reply with
        | Some e => shown_errors s ++ [u "An error occurred during streaming: " ++ e]
        | None => shown_errors s
        end in
      let full := full_response st in
      match format_final_response full is_reasoning_prompt true with
      | None => {| messages := msgs; shown_errors := errs |}
      | Some final =>
          let msgs :=
            if nonempty full then msgs ++ [{| role_of := Assistant; content := final |}]
            else msgs in
          {| messages := msgs; shown_errors := errs |}
      end
  end.

(** One submission of the blocking front-end [1-chat.py] (lines 54-99): the
    reply of [client.converse] is its text or the message of its exception. *)
Definition submit_block (prompt : str) (reply : str + str) (s : session) : session :=
  let msgs := messages s ++ [{| role_of := User; content := prompt |}] in
  match reply with
  | inl response_text =>
      {| messages := msgs ++ [{| role_of := Assistant; content := response_text |}];
         shown_errors := shown_errors s |}
  | inr e =>
      {| messages := msgs; shown_errors := shown_errors s ++ [u "An error occurred: " ++ e] |}
  end.

End Chat.

Import Chat.

(** * [1-multimodal_chat_clean_stream_latex.py]: the parenthesis heuristic
    and its streaming front-end. *)
Module LatexFront.

(** The inner [while j < len(text)] loop of [wrap_math_expressions], run on
    [text[i:]] with [depth] and the offset [j] from [i]: the offset of the
    matching [')'], or [None] when the loop ends without [break]. *)
Fixpoint find_close (s : str) (depth : Z) (j : nat) : option nat :=
  match s with
  | [] => None
  | c :: t =>
      if c =? 40 then find_close t (depth + 1) (S j)
      else if c =? 41 then
        if depth - 1 =? 0 then Some j else find_close t (depth - 1) (S j)
      else find_close t depth (S j)
  end.

(** The outer loop, on the unread suffix [text[i:]]. *)
Fixpoint wrap_go (fuel : nat) (s : str) : str :=
  match fuel with
  | O => s
  | S n =>
      match s with
      | [] => []
      | c :: t =>
          if c =? 40 then
            match find_close s 0 O with
            | Some j =>
                let candidate := firstn (j - 1) t in
                if contains [92] candidate || contains [94] candidate then
                  [36] ++ strip candidate ++ [36] ++ wrap_go n (skipn (S j) s)
                else c :: wrap_go n t
            | None => c :: wrap_go n t
            end
          else c :: wrap_go n t
      end
  end.

Definition wrap_math_expressions (text : str) : str :=
  wrap_go (List.length text) text.

(** Streaming state of one submission: the generator's own [full_response]
    and the placeholder. *)
Record latex_ui := { gen_full : str; latex_placeholder : option str }.

(** One [contentBlockDelta] event: the generator appends the chunk and yields
    the wrapped buffer; the caller shows it with the cursor when non-empty. *)
Definition latex_step (st : latex_ui) (chunk : str) : latex_ui :=
  let full := gen_full st ++ chunk in
  let rendered := wrap_math_expressions full in
  {| gen_full := full;
     latex_placeholder :=
       if nonempty rendered then Some (rendered ++ CURSOR) else latex_placeholder st |}.

(** One submission (lines 196-245): the caller's own [full_response] stays
    [""]; the final render and the assistant turn are computed from it.
    Result: the session, the last streaming render and the final render. *)
Definition submit_latex (prompt : str) (reply : stream_reply) (s : session)
  : session * option str * str :=
  let msgs := messages s ++ [{| role_of := User; content := prompt |}] in
  let errs :=
    match raises reply with
    | Some e => shown_errors s ++ [u "An error occurred during streaming: " ++ e]
    | None => shown_errors s
    end in
  let st := fold_left latex_step (deltas reply)
              {| gen_full := []; latex_placeholder := None |} in
  let full_response : str := [] in
  let final_rendered := wrap_math_expressions full_response in
  let msgs :=
    if nonempty final_rendered
    then msgs ++ [{| role_of := Assistant; content := final_rendered |}]
    else msgs in
  ({| messages := msgs; shown_errors := errs |}, latex_placeholder st, final_rendered).

End LatexFront.

Import LatexFront.

(** * The sidebar of [1-multimodel_chat_clean_stream.py] (lines 240-273 and
    311-313): session keys that may be absent, reset on a configuration
    change. *)
Module Sidebar.

Record app_state := {
  selected_model : option str;
  stored_prompt : option str;
  stored_messages : option (list turn);
  warnings : list str }.

Definition MODEL_WARNING : str := u "Model changed. Chat history cleared.".
Definition PROMPT_WARNING : str := u "System prompt changed. Chat history cleared.".

Definition opt_neq (o : option str) (v : str) : bool :=
  match o with Some w => negb (str_eqb w v) | None => true end.

(** [if "selected_model" not in st.session_state: ...] *)
Definition init_model (model_id : str) (st : app_state) : app_state :=
  match selected_model st with
  | None => {| selected_model := Some model_id; stored_prompt := stored_prompt st;
               stored_messages := stored_messages st; warnings := warnings st |}
  | Some _ => st
  end.

(** [if st.session_state.selected_model != MODEL_ID: ...] *)
Definition reset_on_model (model_id : str) (st : app_state) : app_state :=
  if opt_neq (selected_model st) model_id then
    {| selected_model := Some model_id; stored_prompt := stored_prompt st;
       stored_messages := Some []; warnings := warnings st ++ [MODEL_WARNING] |}
  else st.

(** [if "system_prompt" not in st.session_state: ...] *)
Definition init_prompt (system_prompt : str) (st : app_state) : app_state :=
  match stored_prompt st with
  | None => {| selected_model := selected_model st; stored_prompt := Some system_prompt;
               stored_messages := stored_messages st; warnings := warnings st |}
  | Some _ => st
  end.

(** [if st.session_state.system_prompt != system_prompt: ...] *)
Definition reset_on_prompt (system_prompt : str) (st : app_state) : app_state :=
  if opt_neq (stored_prompt st) system_prompt then
    {| selected_model := selected_model st; stored_prompt := Some system_prompt;
       stored_messages := Some []; warnings := warnings st ++ [PROMPT_WARNING] |}
  else st.

(** [if "messages" not in st.session_state: st.session_state.messages = []] *)
Definition init_messages (st : app_state) : app_state :=
  match stored_messages st with
  | None => {| selected_model := selected_model st; stored_prompt := stored_prompt st;
               stored_messages := Some []; warnings := warnings st |}
  | Some _ => st
  end.

(** The blocks in source order; [MODEL_ID] is the selected model,
    [system_prompt] the selected preset (before the text-area override). *)
Definition sidebar (model_id system_prompt : str) (st : app_state) : app_state :=
  init_messages (reset_on_prompt system_prompt (init_prompt system_prompt
    (reset_on_model model_id (init_model model_id st)))).

(** One run of the script: the sidebar, then a submission when the chat input
    holds a prompt. *)
Definition run_script (model_id system_prompt : str) (is_reasoning_prompt : bool)
    (input : option (str * stream_reply)) (st : app_state) : app_state :=
  let st := sidebar model_id system_prompt st in
  match input with
  | None => st
  | Some (prompt, reply) =>
      let msgs := match stored_messages st with Some m => m | None => [] end in
      let s' := submit_stream is_reasoning_prompt prompt reply
                  {| messages := msgs; shown_errors := [] |} in
      {| selected_model := selected_model st; stored_prompt := stored_prompt st;
         stored_messages := Some (messages s'); warnings := warnings st |}
  end.

End Sidebar.

Import Sidebar.

(** * Facts about the string primitives *)
Module StrFacts.

Lemma prefixb_app_eq (p r : str) : prefixb p (p ++ r) = true.
Proof. induction p as [|a p IH]; simpl; [reflexivity|]. rewrite Z.eqb_refl; exact IH. Qed.

Lemma prefixb_decomp (p s : str) :
  prefixb p s = true -> s = p ++ skipn (List.length p) s.
Proof.
  revert s; induction p as [|a p IH]; intros s H; simpl; [reflexivity|].
  destruct s as [|b s]; [discriminate|].
  simpl in H; apply andb_true_iff in H as [Hab H].
  apply Z.eqb_eq in Hab; subst b. f_equal. now apply IH.
Qed.

Lemma prefixb_length (p s : str) :
  prefixb p s = true -> (List.length p <= List.length s)%nat.
Proof.
  intros H; rewrite (prefixb_decomp p s H), length_app; lia.
Qed.

Lemma prefixb_app (p s r : str) :
  prefixb p s = true -> prefixb p (s ++ r) = true.
Proof.
  intros H; rewrite (prefixb_decomp p s H), <- app_assoc; apply prefixb_app_eq.
Qed.

Lemma prefixb_app_long (p s r : str) :
  (List.length p <= List.length s)%nat -> prefixb p (s ++ r) = prefixb p s.
Proof.
  revert s; induction p as [|a p IH]; intros s Hl; [reflexivity|].
  destruct s as [|b s]; simpl in *; [lia|].
  rewrite IH by lia; reflexivity.
Qed.

Lemma contains_length (p s : str) :
  contains p s = true -> (List.length p <= List.length s)%nat.
Proof.
  induction s as [|c s IH]; simpl; intros H.
  - rewrite orb_false_r in H; now apply prefixb_length in H.
  - apply orb_true_iff in H as [H|H].
    + now apply prefixb_length in H.
    + simpl in IH; specialize (IH H); lia.
Qed.

Lemma contains_app_l (p l r : str) :
  contains p l = true -> contains p (l ++ r) = true.
Proof.
  induction l as [|c l IH]; simpl; intros H.
  - rewrite orb_false_r in H. destruct p; [destruct r; reflexivity|discriminate].
  - apply orb_true_iff in H as [H|H].
    + pose proof (prefixb_app p (c :: l) r H) as H'. simpl in H'.
      now rewrite H'.
    + now rewrite IH, orb_true_r.
Qed.

Lemma contains_app_r (p l r : str) :
  contains p r = true -> contains p (l ++ r) = true.
Proof.
  induction l as [|c l IH]; simpl; intros H; [exact H|].
  now rewrite IH, orb_true_r.
Qed.

Lemma contains_self (p r : str) : contains p (p ++ r) = true.
Proof.
  destruct p as [|a p]; simpl; [destruct r; reflexivity|].
  rewrite Z.eqb_refl, prefixb_app_eq; reflexivity.
Qed.

Lemma break_at_decomp (p s a b : str) :
  break_at p s = Some (a, b) -> s = a ++ p ++ b.
Proof.
  revert a b; induction s as [|c s IH]; intros a b H; simpl in H.
  - destruct (prefixb p []) eqn:Hp; [|discriminate].
    injection H as <- <-. destruct p; [reflexivity|discriminate].
  - destruct (prefixb p (c :: s)) eqn:Hp.
    + injection H as <- <-. exact (prefixb_decomp _ _ Hp).
    + destruct (break_at p s) as [[a' b']|] eqn:Hb; [|discriminate].
      injection H as <- <-. simpl. f_equal. now apply IH.
Qed.

Lemma break_at_length (p s a b : str) :
  break_at p s = Some (a, b) -> (List.length p <= List.length s)%nat.
Proof.
  intros H; rewrite (break_at_decomp p s a b H), !length_app; lia.
Qed.

Lemma break_at_contains (p s : str) :
  contains p s = true -> exists a b, break_at p s = Some (a, b).
Proof.
  induction s as [|c s IH]; intros H; simpl in *.
  - rewrite orb_false_r in H; rewrite H; eauto.
  - destruct (prefixb p (c :: s)) eqn:Hp; [eauto|].
    destruct (IH H) as (a & b & Hb). rewrite Hb; eauto.
Qed.

Lemma break_at_none (p s : str) :
  contains p s = false -> break_at p s = None.
Proof.
  induction s as [|c s IH]; intros H; simpl in *.
  - rewrite orb_false_r in H; now rewrite H.
  - apply orb_false_iff in H as [H1 H2]. rewrite H1, (IH H2); reflexivity.
Qed.

Lemma break_at_app (p s r a b : str) :
  break_at p s = Some (a, b) -> break_at p (s ++ r) = Some (a, b ++ r).
Proof.
  revert a b; induction s as [|c s IH]; intros a b H.
  - simpl in H. destruct (prefixb p []) eqn:Hp; [|discriminate].
    injection H as <- <-. destruct p; [|discriminate]. simpl.
    destruct r; reflexivity.
  - pose proof (break_at_length _ _ _ _ H) as Hl.
    change ((c :: s) ++ r) with (c :: (s ++ r)).
    cbn [break_at] in H |- *.
    destruct (prefixb p (c :: s)) eqn:Hp.
    + injection H as <- <-.
      pose proof (prefixb_app _ _ r Hp) as Hp'. simpl in Hp'. rewrite Hp'.
      change (c :: s ++ r) with ((c :: s) ++ r). rewrite skipn_app.
      replace (List.length p - List.length (c :: s))%nat with 0%nat by lia.
      reflexivity.
    + destruct (break_at p s) as [[a' b']|] eqn:Hb; [|discriminate].
      injection H as <- <-.
      pose proof (break_at_length _ _ _ _ Hb) as Hl'.
      pose proof (prefixb_app_long p (c :: s) r) as Hp'. simpl in Hp'.
      rewrite Hp' by lia. rewrite Hp.
      rewrite (IH _ _ eq_refl); reflexivity.
Qed.

Lemma hd_split (p s : str) :
  hd [] (split p s) = match break_at p s with Some (a, _) => a | None => s end.
Proof.
  unfold split; simpl. destruct (break_at p s) as [[a b]|]; reflexivity.
Qed.


End StrFacts.

Import StrFacts.

(** * Section extraction *)
Module Sections.


Lemma lazy_until_app (e r t : str) :
  e <> [] -> contains e r = true -> lazy_until e (r ++ t) = lazy_until e r.
Proof.
  intros He; induction r as [|c r IH]; intros H.
  - destruct e; [congruence|discriminate].
  - change ((c :: r) ++ t) with (c :: (r ++ t)). cbn [lazy_until].
    destruct (prefixb e (c :: r)) eqn:Hp.
    + pose proof (prefixb_app _ _ t Hp) as Hp'. simpl in Hp'. now rewrite Hp'.
    + cbn [contains] in H. rewrite Hp in H. simpl in H.
      pose proof (contains_length _ _ H) as Hl.
      pose proof (prefixb_app_long e (c :: r) t) as Hp'. simpl in Hp'.
      rewrite Hp' by lia. rewrite Hp.
      destruct r as [|d r']; [destruct e; [congruence|discriminate]|].
      simpl nonempty. rewrite (IH H). reflexivity.
Qed.


(** The first occurrence of [p] in [l ++ r] lies in [l] when [l] has one. *)
Lemma break_at_first (p l r : str) :
  contains p l = true ->
  exists a b, break_at p (l ++ r) = Some (a, b ++ r).
Proof.
  intros H; destruct (break_at_contains _ _ H) as (a & b & Hb).
  exists a, b; now apply break_at_app.
Qed.

Lemma markers_nonempty :
  END_THOUGHT <> [] /\ END_SOLUTION <> [] /\ BEGIN_THOUGHT <> [] /\ BEGIN_SOLUTION <> [].
Proof. repeat split; discriminate. Qed.

(** Closing a section after its first begin marker fixes the search. *)
Lemma closed_after_begin (b e x y z : str) :
  exists a w, break_at b (x ++ b ++ y ++ e ++ z) = Some (a, w ++ e ++ z)
           /\ contains e (w ++ e ++ z) = true.
Proof.
  destruct (break_at_first b (x ++ b) (y ++ e ++ z)) as (a & w & Hw).
  { apply contains_app_r. rewrite <- (app_nil_r b) at 2. apply contains_self. }
  exists a, (w ++ y). rewrite <- app_assoc in Hw.
  split; [rewrite <- app_assoc; exact Hw|].
  apply contains_app_r, contains_self.
Qed.


End Sections.

Import Sections.




(** Claim C2. Once the thought section of a buffer [B] is closed (an end
    marker follows a begin marker), the thought content extracted from
    [B ++ S] equals the one extracted from [B], both by the streaming
    formatter and by the final formatter. *)
Theorem closed_thought_frozen (B S x y z : str) :
  B = x ++ BEGIN_THOUGHT ++ y ++ END_THOUGHT ++ z ->
  stream_section BEGIN_THOUGHT END_THOUGHT (B ++ S)
    = stream_section BEGIN_THOUGHT END_THOUGHT B /\
  final_thought_content (B ++ S) = final_thought_content B.
Proof.
  intros ->.
  destruct (closed_after_begin BEGIN_THOUGHT END_THOUGHT x y z) as (a & w & Hb & He).
  set (B := x ++ BEGIN_THOUGHT ++ y ++ END_THOUGHT ++ z) in *.
  set (r := w ++ END_THOUGHT ++ z) in *.
  pose proof (break_at_app _ _ S _ _ Hb) as HbS.
  destruct (break_at_contains _ _ He) as (a2 & b2 & He2).
  pose proof (break_at_app _ _ S _ _ He2) as He2S.
  split.
  - unfold stream_section, split_once. rewrite Hb, HbS. simpl.
    rewrite He, (contains_app_l _ _ S He), !hd_split, He2, He2S.
    reflexivity.
  - unfold final_thought_content, section_search. rewrite Hb, HbS.
    rewrite lazy_until_app by (discriminate || exact He). reflexivity.
Qed.

Lemma closed_thought_frozen_witness :
  u "<|begin_of_thought|>step one<|end_of_thought|>"
  = [] ++ BEGIN_THOUGHT ++ u "step one" ++ END_THOUGHT ++ [] /\
  stream_section BEGIN_THOUGHT END_THOUGHT
    (u "<|begin_of_thought|>step one<|end_of_thought|>" ++ u "<|begin_of_solution|>42")
  = stream_section BEGIN_THOUGHT END_THOUGHT (u "<|begin_of_thought|>step one<|end_of_thought|>") /\
  final_thought_content
    (u "<|begin_of_thought|>step one<|end_of_thought|>" ++ u "<|begin_of_solution|>42")
  = final_thought_content (u "<|begin_of_thought|>step one<|end_of_thought|>").
Proof.
  split; [vm_compute; reflexivity|].
  apply (closed_thought_frozen _ _ [] (u "step one") []).
  vm_compute; reflexivity.
Defined.

(** Claim C3 as stated fails: [format_final_response] searches the solution
    markers in the whole buffer, so a solution section placed before the
    end-of-thought marker is extracted although the text after that marker
    holds no solution marker. *)
Lemma solution_zone_counterexample :
  let text := u "<|begin_of_thought|>t<|begin_of_solution|>s<|end_of_solution|><|end_of_thought|>" in
  contains END_THOUGHT text = true /\
  last (split_once END_THOUGHT text) [] = [] /\
  final_solution_content text = u "s" /\
  final_solution_content (last (split_once END_THOUGHT text) []) = [].
Proof. vm_compute. repeat split. Qed.




(** * The streaming loop *)
Module Loop.



End Loop.

Import Loop.



(** Claim C6 (code defect). On ["$$A \cup B$$"], [format_latex] raises: the
    inline substitution hands the [str] group to [replace_math_symbols],
    whose [match.group(1)] fails. On a match object with that group its
    body would give ["A ∪ B"], which [process_math_expressions] renders as
    ["A union B"]. *)
Theorem cup_example :
  format_latex (u "$$A \cup B$$") = None /\
  replace_math_symbols (MatchObj (u "A \cup B")) = Some (u "A ∪ B") /\
  process_math_expressions (latex_wrap (u "A ∪ B")) = latex_wrap (u "A union B").
Proof. vm_compute. repeat split. Qed.

(** Claim C8 (code defect). The blocking front-end leaves the conversation at
    its user turn when [client.converse] fails, but the streaming front-end,
    when the stream fails after a fragment, shows the error and still appends
    an assistant turn holding the partial reply. *)
Theorem stream_failure_appends_assistant_turn :
  let s0 := {| messages := []; shown_errors := [] |} in
  let s1 := submit_stream true (u "hi")
              {| deltas := [u "Hello"]; raises := Some (u "timeout") |} s0 in
  messages s1 = [{| role_of := User; content := u "hi" |};
                 {| role_of := Assistant; content := u "Hello" |}] /\
  shown_errors s1 = [u "An error occurred during streaming: timeout"] /\
  messages (submit_block (u "hi") (inr (u "timeout")) s0)
    = [{| role_of := User; content := u "hi" |}].
Proof. vm_compute. repeat split. Qed.




(** Claim C10. Every value returned by [format_streaming_response] ends with
    the cursor, and on the empty buffer the output is the cursor alone, in
    both modes. *)
Theorem streaming_cursor (text : str) (is_reasoning_prompt : bool) :
  (forall r, format_streaming_response text is_reasoning_prompt = Some r ->
     exists pre, r = pre ++ CURSOR) /\
  format_streaming_response [] is_reasoning_prompt = Some CURSOR.
Proof.
  split.
  - intros r. unfold format_streaming_response.
    destruct is_reasoning_prompt; cbv beta iota zeta delta [negb].
    + destruct (stream_thought text) as [[ft ct]|]; [|discriminate].
      destruct (stream_solution ft ct) as [f|]; [|discriminate].
      destruct (nonempty f); cbv beta iota zeta delta [negb].
      * intros H; injection H as <-; eauto.
      * destruct (format_latex ct); [|discriminate]. intros H; injection H as <-; eauto.
    + destruct (format_latex text); [|discriminate]. intros H; injection H as <-; eauto.
  - destruct is_reasoning_prompt; vm_compute; reflexivity.
Qed.

Lemma streaming_cursor_witness :
  exists r pre, format_streaming_response (u "<|begin_of_thought|>t") true = Some r /\
                r = pre ++ CURSOR.
Proof.
  destruct (streaming_cursor (u "<|begin_of_thought|>t") true) as [H _].
  destruct (format_streaming_response (u "<|begin_of_thought|>t") true) as [r|] eqn:E;
    [|vm_compute in E; discriminate].
  destruct (H r eq_refl) as [pre Hp]. exists r, pre. split; [reflexivity|exact Hp].
Defined.

(** * Literal substitutions *)
Module Subst.

Lemma sub_lit_go_skip (p g w r : str) (k : nat) :
  List.length w = k -> sub_lit_go p g k (w ++ r) = sub_lit_go p g O r.
Proof.
  revert k; induction w as [|c w IH]; intros k Hk; simpl in Hk; subst k; [reflexivity|].
  simpl. apply IH; reflexivity.
Qed.

Lemma re_sub_lit_match (p g s : str) :
  p <> [] -> prefixb p s = true ->
  re_sub_lit p g s = g ++ re_sub_lit p g (skipn (List.length p) s).
Proof.
  intros Hp H. set (r := skipn (List.length p) s).
  assert (Es : s = p ++ r) by (apply prefixb_decomp; exact H).
  rewrite Es at 1. clearbody r. clear Es H.
  destruct p as [|c p']; [congruence|].
  unfold re_sub_lit. simpl. rewrite Z.eqb_refl, prefixb_app_eq. simpl.
  f_equal. apply sub_lit_go_skip. reflexivity.
Qed.

Lemma re_sub_lit_head (p g z : str) :
  p <> [] -> re_sub_lit p g (p ++ z) = g ++ re_sub_lit p g z.
Proof.
  intros Hp. rewrite re_sub_lit_match by (exact Hp || apply prefixb_app_eq).
  rewrite skipn_app, skipn_all, Nat.sub_diag. reflexivity.
Qed.

Lemma re_sub_lit_nomatch (p g : str) (c : Z) (t : str) :
  prefixb p (c :: t) = false -> re_sub_lit p g (c :: t) = c :: re_sub_lit p g t.
Proof. intros H. unfold re_sub_lit. cbn [sub_lit_go]. rewrite H. reflexivity. Qed.

(** Text free of the lead character of the pattern is copied unchanged. *)
Lemma re_sub_lit_app_free (b : Z) (q g w r : str) :
  ~ In b w -> re_sub_lit (b :: q) g (w ++ r) = w ++ re_sub_lit (b :: q) g r.
Proof.
  induction w as [|c w IH]; intros Hw; [reflexivity|].
  simpl app. rewrite re_sub_lit_nomatch.
  - rewrite IH; [reflexivity|]. intros H; apply Hw; right; exact H.
  - simpl. destruct (Z.eqb_spec b c); [subst; exfalso; apply Hw; left; reflexivity|].
    reflexivity.
Qed.

Lemma prefixb_comparable (p1 p2 s : str) :
  prefixb p1 s = true -> prefixb p2 s = true ->
  prefixb p1 p2 = true \/ prefixb p2 p1 = true.
Proof.
  revert p2 s; induction p1 as [|a p1 IH]; intros p2 s H1 H2; [left; reflexivity|].
  destruct p2 as [|b p2]; [right; reflexivity|].
  destruct s as [|c s]; [discriminate|].
  simpl in H1, H2 |- *.
  apply andb_true_iff in H1 as [Ha H1]; apply andb_true_iff in H2 as [Hb H2].
  apply Z.eqb_eq in Ha, Hb; subst a b. rewrite Z.eqb_refl. simpl.
  exact (IH _ _ H1 H2).
Qed.

(** A prefix free of the glyph's characters survives the substitution
    backwards: it was a prefix before. *)
Lemma prefix_before_sub (b : Z) (q1 g1 : str) (w q : str) :
  g1 <> [] -> (forall x, In x g1 -> ~ In x q) ->
  prefixb q (re_sub_lit (b :: q1) g1 w) = true -> prefixb q w = true.
Proof.
  intros Hne; revert q; induction w as [|c w IH]; intros q Hq H; [exact H|].
  destruct q as [|y q]; [reflexivity|].
  destruct (prefixb (b :: q1) (c :: w)) eqn:Hm.
  - rewrite re_sub_lit_match in H by (discriminate || exact Hm).
    destruct g1 as [|z g1]; [congruence|].
    simpl in H. apply andb_true_iff in H as [Hy _]. apply Z.eqb_eq in Hy; subst z.
    exfalso; apply (Hq y); left; reflexivity.
  - rewrite re_sub_lit_nomatch in H by exact Hm.
    simpl in H |- *. apply andb_true_iff in H as [Hy H].
    rewrite Hy. simpl. apply IH; [|exact H].
    intros x Hx Hx'. apply (Hq x Hx); right; exact Hx'.
Qed.

(** Conditions under which two literal substitutions commute: both patterns
    start with the same character [b], found nowhere else in patterns or
    glyphs; the glyphs are non-empty and share no character with the other
    pattern; neither pattern is a prefix of the other. *)
Record commute_cond (b : Z) (q1 g1 q2 g2 : str) : Prop := {
  cc_q1 : ~ In b q1; cc_q2 : ~ In b q2; cc_g1 : ~ In b g1; cc_g2 : ~ In b g2;
  cc_g1ne : g1 <> []; cc_g2ne : g2 <> [];
  cc_g1q2 : forall x, In x g1 -> ~ In x q2;
  cc_g2q1 : forall x, In x g2 -> ~ In x q1;
  cc_12 : prefixb (b :: q1) (b :: q2) = false;
  cc_21 : prefixb (b :: q2) (b :: q1) = false }.

Lemma commute_cond_sym (b : Z) (q1 g1 q2 g2 : str) :
  commute_cond b q1 g1 q2 g2 -> commute_cond b q2 g2 q1 g1.
Proof. intros []; constructor; assumption. Qed.

(** A match of the first pattern, once both sides agree on the rest. *)
Lemma commute_at_match (b : Z) (q1 g1 q2 g2 z : str) :
  commute_cond b q1 g1 q2 g2 ->
  re_sub_lit (b :: q1) g1 (re_sub_lit (b :: q2) g2 z)
  = re_sub_lit (b :: q2) g2 (re_sub_lit (b :: q1) g1 z) ->
  re_sub_lit (b :: q1) g1 (re_sub_lit (b :: q2) g2 ((b :: q1) ++ z))
  = re_sub_lit (b :: q2) g2 (re_sub_lit (b :: q1) g1 ((b :: q1) ++ z)).
Proof.
  intros C IH.
  assert (Hm1 : prefixb (b :: q1) ((b :: q1) ++ z) = true) by apply prefixb_app_eq.
  assert (Hm2 : prefixb (b :: q2) ((b :: q1) ++ z) = false).
  { destruct (prefixb (b :: q2) ((b :: q1) ++ z)) eqn:E; [|reflexivity].
    destruct (prefixb_comparable _ _ _ Hm1 E) as [H|H].
    - rewrite (cc_12 _ _ _ _ _ C) in H; discriminate.
    - rewrite (cc_21 _ _ _ _ _ C) in H; discriminate. }
  rewrite (re_sub_lit_head (b :: q1) g1 z) by discriminate.
  rewrite (re_sub_lit_app_free b q2 g2 g1) by apply (cc_g1 _ _ _ _ _ C).
  simpl app in Hm2 |- *.
  rewrite (re_sub_lit_nomatch _ g2 _ _ Hm2).
  rewrite (re_sub_lit_app_free b q2 g2 q1) by apply (cc_q1 _ _ _ _ _ C).
  change (b :: q1 ++ re_sub_lit (b :: q2) g2 z)
    with ((b :: q1) ++ re_sub_lit (b :: q2) g2 z).
  rewrite (re_sub_lit_head (b :: q1) g1) by discriminate.
  rewrite IH. reflexivity.
Qed.

(** No match at the head: the substitution of the other pattern keeps it so. *)
Lemma nomatch_after_sub (b : Z) (q1 g1 q2 g2 : str) (c : Z) (t : str) :
  commute_cond b q1 g1 q2 g2 ->
  prefixb (b :: q2) (c :: t) = false ->
  prefixb (b :: q2) (c :: re_sub_lit (b :: q1) g1 t) = false.
Proof.
  intros C H. simpl in H |- *.
  destruct (b =? c); simpl in H |- *; [|reflexivity].
  destruct (prefixb q2 (re_sub_lit (b :: q1) g1 t)) eqn:E; [|reflexivity].
  rewrite (prefix_before_sub b q1 g1 t q2 (cc_g1ne _ _ _ _ _ C) (cc_g1q2 _ _ _ _ _ C) E) in H.
  discriminate.
Qed.

Lemma re_sub_lit_commute (b : Z) (q1 g1 q2 g2 : str) :
  commute_cond b q1 g1 q2 g2 ->
  forall s, re_sub_lit (b :: q1) g1 (re_sub_lit (b :: q2) g2 s)
            = re_sub_lit (b :: q2) g2 (re_sub_lit (b :: q1) g1 s).
Proof.
  intros C s. remember (List.length s) as n eqn:Hn.
  assert (Hle : (List.length s <= n)%nat) by lia. clear Hn.
  revert s Hle; induction n as [|n IH]; intros s Hle.
  - destruct s; [reflexivity|simpl in Hle; lia].
  - destruct s as [|c t]; [reflexivity|].
    destruct (prefixb (b :: q1) (c :: t)) eqn:H1.
    + rewrite (prefixb_decomp _ _ H1).
      apply commute_at_match; [exact C|].
      apply IH. pose proof (prefixb_decomp _ _ H1) as E.
      apply (f_equal (@List.length Z)) in E. rewrite length_app in E.
      simpl in E, Hle |- *. lia.
    + destruct (prefixb (b :: q2) (c :: t)) eqn:H2.
      * rewrite (prefixb_decomp _ _ H2).
        symmetry. apply commute_at_match; [apply commute_cond_sym; exact C|].
        symmetry. apply IH. pose proof (prefixb_decomp _ _ H2) as E.
        apply (f_equal (@List.length Z)) in E. rewrite length_app in E.
        simpl in E, Hle |- *. lia.
      * rewrite (re_sub_lit_nomatch _ _ _ _ H1), (re_sub_lit_nomatch _ _ _ _ H2).
        rewrite (re_sub_lit_nomatch _ _ _ _ (nomatch_after_sub _ _ _ _ _ _ _ C H2)).
        rewrite (re_sub_lit_nomatch _ _ _ _
                   (nomatch_after_sub _ _ _ _ _ _ _ (commute_cond_sym _ _ _ _ _ C) H1)).
        f_equal. apply IH. simpl in Hle; lia.
Qed.

End Subst.

Import Subst.

(** * The symbol table of [replace_math_symbols] *)
Module Table.

Definition memb (x : Z) (l : str) : bool := existsb (Z.eqb x) l.

(** Decision procedure for [commute_cond] on two table entries. *)
Definition commute_okb (e1 e2 : str * str) : bool :=
  match e1, e2 with
  | (b1 :: q1, g1), (b2 :: q2, g2) =>
      (b1 =? b2) && negb (memb b1 q1) && negb (memb b1 q2)
      && negb (memb b1 g1) && negb (memb b1 g2)
      && nonempty g1 && nonempty g2
      && forallb (fun x => negb (memb x q2)) g1
      && forallb (fun x => negb (memb x q1)) g2
      && negb (prefixb (b1 :: q1) (b1 :: q2)) && negb (prefixb (b1 :: q2) (b1 :: q1))
  | _, _ => false
  end.

Lemma memb_false (x : Z) (l : str) : memb x l = false -> ~ In x l.
Proof.
  intros H Hin. assert (existsb (Z.eqb x) l = true) as H'.
  { apply existsb_exists. exists x. split; [exact Hin|apply Z.eqb_refl]. }
  unfold memb in H; congruence.
Qed.

Lemma commute_okb_sound (b1 b2 : Z) (q1 g1 q2 g2 : str) :
  commute_okb (b1 :: q1, g1) (b2 :: q2, g2) = true ->
  b1 = b2 /\ commute_cond b1 q1 g1 q2 g2.
Proof.
  unfold commute_okb. intros H.
  repeat match goal with
         | H : _ && _ = true |- _ => apply andb_true_iff in H as [? ?]
         end.
  repeat match goal with
         | H : negb _ = true |- _ => apply negb_true_iff in H
         end.
  match goal with H : (b1 =? b2) = true |- _ => apply Z.eqb_eq in H end.
  split; [assumption|]. constructor; try (apply memb_false; assumption); try assumption.
  - destruct g1; discriminate.
  - destruct g2; discriminate.
  - intros x Hx. apply memb_false.
    match goal with H : forallb _ g1 = true |- _ =>
      rewrite forallb_forall in H; specialize (H x Hx); apply negb_true_iff in H; exact H end.
  - intros x Hx. apply memb_false.
    match goal with H : forallb _ g2 = true |- _ =>
      rewrite forallb_forall in H; specialize (H x Hx); apply negb_true_iff in H; exact H end.
Qed.

Lemma str_eqb_true (a b : str) : str_eqb a b = true -> a = b.
Proof.
  revert b; induction a as [|x a IH]; intros [|y b] H; try discriminate; [reflexivity|].
  simpl in H. apply andb_true_iff in H as [Hx H]. apply Z.eqb_eq in Hx. subst y.
  f_equal. now apply IH.
Qed.

Definition IN : str := u "\in".
Definition INFTY : str := u "\infty".

Definition table_pair_ok (e1 e2 : str * str) : bool :=
  (str_eqb (fst e1) IN && str_eqb (fst e2) INFTY)
  || (str_eqb (fst e1) INFTY && str_eqb (fst e2) IN)
  || (str_eqb (fst e1) (fst e2) && str_eqb (snd e1) (snd e2))
  || commute_okb e1 e2.

Lemma table_pairs_ok :
  forallb (fun e1 => forallb (table_pair_ok e1) math_symbols) math_symbols = true.
Proof. vm_compute. reflexivity. Qed.

End Table.

Import Table.

(** Claim C4 (as amended). The table of [replace_math_symbols] is not
    prefix-free: [\in] is a prefix of [\infty]. Every other two entries of the
    table commute: applying their substitutions in either order gives the same
    text, for every input. *)
Theorem symbol_table_commutes_except_in_infty :
  prefixb IN INFTY = true /\
  (forall p1 g1 p2 g2,
     In (p1, g1) math_symbols -> In (p2, g2) math_symbols ->
     ~ (p1 = IN /\ p2 = INFTY) -> ~ (p1 = INFTY /\ p2 = IN) ->
     forall s, re_sub_lit p1 g1 (re_sub_lit p2 g2 s)
               = re_sub_lit p2 g2 (re_sub_lit p1 g1 s)).
Proof.
  split; [vm_compute; reflexivity|].
  intros p1 g1 p2 g2 H1 H2 N1 N2 s.
  pose proof table_pairs_ok as T. rewrite forallb_forall in T.
  specialize (T _ H1). rewrite forallb_forall in T. specialize (T _ H2).
  unfold table_pair_ok in T; simpl fst in T; simpl snd in T.
  repeat rewrite orb_true_iff in T.
  destruct T as [[[T|T]|T]|T].
  - apply andb_true_iff in T as [Ta Tb].
    exfalso; apply N1; split; apply str_eqb_true; assumption.
  - apply andb_true_iff in T as [Ta Tb].
    exfalso; apply N2; split; apply str_eqb_true; assumption.
  - apply andb_true_iff in T as [Ta Tb].
    apply str_eqb_true in Ta, Tb. subst p2 g2. reflexivity.
  - destruct p1 as [|b1 q1]; [discriminate|].
    destruct p2 as [|b2 q2]; [destruct b1; discriminate|].
    destruct (commute_okb_sound _ _ _ _ _ _ T) as [<- C].
    apply re_sub_lit_commute; exact C.
Qed.

Lemma symbol_table_commutes_except_in_infty_witness :
  re_sub_lit (u "\cup") (u "∪") (re_sub_lit (u "\cap") (u "∩") (u "\cup\cap"))
  = re_sub_lit (u "\cap") (u "∩") (re_sub_lit (u "\cup") (u "∪") (u "\cup\cap")).
Proof.
  apply (proj2 symbol_table_commutes_except_in_infty).
  - left; reflexivity.
  - right; left; reflexivity.
  - intros [H _]. apply (f_equal (@List.length Z)) in H. vm_compute in H. discriminate.
  - intros [H _]. apply (f_equal (@List.length Z)) in H. vm_compute in H. discriminate.
Defined.

(** Claim C4 as stated fails: the order of the table matters. Applied in the
    source order, [\in] fires first inside [\infty]; applied in the reverse
    order (a permutation of the table), [\infty] fires. *)
Lemma symbol_order_counterexample :
  Permutation math_symbols (rev math_symbols) /\
  apply_table math_symbols (u "\infty") = u "∈fty" /\
  apply_table (rev math_symbols) (u "\infty") = u "∞".
Proof. split; [apply Permutation_rev|]. split; vm_compute; reflexivity. Qed.

(** * [wrap_math_expressions] *)
Module WrapFacts.

Lemma wrap_go_fuel (f1 f2 : nat) (s : str) :
  (List.length s <= f1)%nat -> (List.length s <= f2)%nat -> wrap_go f1 s = wrap_go f2 s.
Proof.
  revert f2 s; induction f1 as [|n IH]; intros f2 s H1 H2.
  - destruct s; [|simpl in H1; lia]. destruct f2; reflexivity.
  - destruct s as [|c t]; [destruct f2; reflexivity|].
    destruct f2 as [|m]; [simpl in H2; lia|]. simpl in H1, H2.
    cbn [wrap_go].
    assert (Ht : wrap_go n t = wrap_go m t) by (apply IH; lia).
    destruct (c =? 40); [|now rewrite Ht].
    destruct (find_close (c :: t) 0 O) as [j|]; [|now rewrite Ht].
    destruct (contains [92] (firstn (j - 1) t) || contains [94] (firstn (j - 1) t));
      [|now rewrite Ht].
    rewrite (IH m); [reflexivity| |];
      cbn [skipn]; pose proof (length_skipn j t); lia.
Qed.

Lemma wrap_nil : wrap_math_expressions [] = [].
Proof. reflexivity. Qed.

(** One turn of the outer loop. *)
Lemma wrap_cons (c : Z) (t : str) :
  wrap_math_expressions (c :: t) =
  if c =? 40 then
    match find_close (c :: t) 0 O with
    | Some j =>
        if contains [92] (firstn (j - 1) t) || contains [94] (firstn (j - 1) t) then
          [36] ++ strip (firstn (j - 1) t) ++ [36]
               ++ wrap_math_expressions (skipn (S j) (c :: t))
        else c :: wrap_math_expressions t
    | None => c :: wrap_math_expressions t
    end
  else c :: wrap_math_expressions t.
Proof.
  unfold wrap_math_expressions. cbn [List.length wrap_go].
  destruct (c =? 40); [|reflexivity].
  destruct (find_close (c :: t) 0 O) as [j|]; [|reflexivity].
  destruct (contains [92] (firstn (j - 1) t) || contains [94] (firstn (j - 1) t));
    [|reflexivity].
  rewrite (wrap_go_fuel (List.length t) (List.length (skipn (S j) (c :: t))));
    [reflexivity| |reflexivity].
  cbn [skipn]. pose proof (length_skipn j t); lia.
Qed.

Lemma contains_single (x : Z) (l : str) : contains [x] l = true <-> In x l.
Proof.
  induction l as [|c l IH]; [simpl; split; [discriminate|tauto]|].
  cbn [contains prefixb]. rewrite andb_true_r, orb_true_iff, IH, Z.eqb_eq.
  simpl; split; intros [H|H]; auto.
Qed.

Lemma in_firstn (x : Z) (n : nat) (l : str) : In x (firstn n l) -> In x l.
Proof.
  intros H; rewrite <- (firstn_skipn n l); apply in_or_app; now left.
Qed.

Lemma in_skipn (x : Z) (n : nat) (l : str) : In x (skipn n l) -> In x l.
Proof.
  intros H; rewrite <- (firstn_skipn n l); apply in_or_app; now right.
Qed.

(** Text without [(], or without [\] and [^], is copied. *)
Lemma wrap_identity (text : str) :
  ~ In 40 text \/ (~ In 92 text /\ ~ In 94 text) ->
  wrap_math_expressions text = text.
Proof.
  remember (List.length text) as n eqn:Hn.
  assert (Hle : (List.length text <= n)%nat) by lia. clear Hn. revert text Hle.
  induction n as [|n IH]; intros text Hle H.
  - destruct text; [reflexivity|simpl in Hle; lia].
  - destruct text as [|c t]; [reflexivity|]. simpl in Hle.
    assert (Ht : wrap_math_expressions t = t).
    { apply IH; [lia|]. destruct H as [H|[H1 H2]]; [left|right; split];
        intros I; [apply H|apply H1|apply H2]; now right. }
    rewrite wrap_cons.
    destruct (c =? 40) eqn:Ec; [|now rewrite Ht].
    apply Z.eqb_eq in Ec; subst c.
    destruct H as [H|[H1 H2]]; [exfalso; apply H; now left|].
    destruct (find_close (40 :: t) 0 O) as [j|]; [|now rewrite Ht].
    destruct (contains [92] (firstn (j - 1) t)) eqn:E1.
    { apply contains_single, in_firstn in E1. exfalso; apply H1; now right. }
    destruct (contains [94] (firstn (j - 1) t)) eqn:E2.
    { apply contains_single, in_firstn in E2. exfalso; apply H2; now right. }
    simpl orb. now rewrite Ht.
Qed.

Lemma wrap_app_copy (pre r : str) :
  ~ In 40 pre -> wrap_math_expressions (pre ++ r) = pre ++ wrap_math_expressions r.
Proof.
  induction pre as [|c pre IH]; intros H; [reflexivity|].
  rewrite <- app_comm_cons, wrap_cons.
  assert (Ec : (c =? 40) = false) by (apply Z.eqb_neq; intros ->; apply H; now left).
  rewrite Ec, IH; [reflexivity|]. intros I; apply H; now right.
Qed.

Lemma find_close_skip (cand r : str) (d : Z) (j : nat) :
  (forall x, In x cand -> x <> 40 /\ x <> 41) ->
  find_close (cand ++ r) d j = find_close r d (j + List.length cand).
Proof.
  revert j; induction cand as [|c cand IH]; intros j H.
  - simpl; now rewrite Nat.add_0_r.
  - destruct (H c (or_introl eq_refl)) as [H1 H2].
    rewrite <- app_comm_cons. cbn [find_close].
    rewrite (proj2 (Z.eqb_neq _ _) H1), (proj2 (Z.eqb_neq _ _) H2).
    rewrite IH; [f_equal; simpl; lia|]. intros x I; apply H; now right.
Qed.

Lemma find_close_none (s : str) (d : Z) (j : nat) :
  ~ In 41 s -> find_close s d j = None.
Proof.
  revert d j; induction s as [|c s IH]; intros d j H; [reflexivity|].
  cbn [find_close].
  assert (E : (c =? 41) = false) by (apply Z.eqb_neq; intros ->; apply H; now left).
  rewrite E. destruct (c =? 40); apply IH; intros I; apply H; now right.
Qed.

(** A parenthesised span with no inner parenthesis and a math character. *)
Lemma wrap_span (pre cand post : str) :
  ~ In 40 pre ->
  (forall x, In x cand -> x <> 40 /\ x <> 41) ->
  In 92 cand \/ In 94 cand ->
  wrap_math_expressions (pre ++ [40] ++ cand ++ [41] ++ post)
  = pre ++ [36] ++ strip cand ++ [36] ++ wrap_math_expressions post.
Proof.
  intros Hpre Hc Hm. rewrite wrap_app_copy by exact Hpre. f_equal.
  cbn [app]. rewrite wrap_cons, Z.eqb_refl.
  assert (F : find_close (40 :: cand ++ 41 :: post) 0 O = Some (S (List.length cand))).
  { cbn [find_close Z.eqb]. simpl (0 + 1). rewrite find_close_skip by exact Hc.
    reflexivity. }
  rewrite F. replace (S (List.length cand) - 1)%nat with (List.length cand) by lia.
  rewrite firstn_app, firstn_all, Nat.sub_diag, firstn_O, app_nil_r.
  assert (M : contains [92] cand || contains [94] cand = true).
  { destruct Hm as [Hm|Hm]; apply contains_single in Hm; rewrite Hm;
      [reflexivity|apply orb_true_r]. }
  rewrite M.
  change (skipn (S (S (List.length cand))) (40 :: cand ++ 41 :: post))
    with (skipn (S (List.length cand)) (cand ++ 41 :: post)).
  rewrite skipn_app, skipn_all2, app_nil_l by lia.
  replace (S (List.length cand) - List.length cand)%nat with 1%nat by lia.
  reflexivity.
Qed.

(** An opening parenthesis with no closing one after it is copied. *)
Lemma wrap_unmatched (t : str) :
  ~ In 41 t -> wrap_math_expressions (40 :: t) = 40 :: wrap_math_expressions t.
Proof.
  intros H. rewrite wrap_cons, Z.eqb_refl, find_close_none; [reflexivity|].
  intros [E|I]; [discriminate|contradiction].
Qed.

Lemma wrap_nonempty (s : str) : nonempty (wrap_math_expressions s) = nonempty s.
Proof.
  destruct s as [|c t]; [reflexivity|]. rewrite wrap_cons.
  destruct (c =? 40); [|reflexivity].
  destruct (find_close (c :: t) 0 O); [|reflexivity].
  destruct (_ || _); reflexivity.
Qed.

End WrapFacts.

(** * The streaming loop of the LaTeX front-end *)
Module LatexLoop.

Definition shows_buffer (st : latex_ui) : Prop :=
  latex_placeholder st =
  if nonempty (gen_full st) then Some (wrap_math_expressions (gen_full st) ++ CURSOR)
  else None.

Lemma latex_step_shows (st : latex_ui) (chunk : str) :
  shows_buffer st -> shows_buffer (latex_step st chunk).
Proof.
  unfold shows_buffer, latex_step; cbn [gen_full latex_placeholder]; intros H.
  rewrite WrapFacts.wrap_nonempty.
  destruct (nonempty (gen_full st ++ chunk)) eqn:E; [reflexivity|].
  rewrite H. destruct (gen_full st); [reflexivity|discriminate].
Qed.

Lemma latex_fold (cs : list str) (st : latex_ui) :
  shows_buffer st ->
  shows_buffer (fold_left latex_step cs st) /\
  gen_full (fold_left latex_step cs st) = gen_full st ++ List.concat cs.
Proof.
  revert st; induction cs as [|c cs IH]; intros st H.
  - simpl; now rewrite app_nil_r.
  - simpl. destruct (IH (latex_step st c) (latex_step_shows st c H)) as [H1 H2].
    split; [exact H1|]. rewrite H2; simpl. now rewrite app_assoc.
Qed.

End LatexLoop.

(** * [format_latex] and [process_math_expressions] on plain text *)
Module PlainFacts.

Lemma DD_eq : DD = [36; 36].
Proof. reflexivity. Qed.

Lemma inline_close_length (r a b : str) :
  inline_close r = Some (a, b) -> (List.length b <= List.length r)%nat.
Proof.
  revert a; induction r as [|c r IH]; intros a H; [discriminate|].
  cbn [inline_close] in H.
  destruct (prefixb DD (c :: r)).
  - injection H as _ <-. destruct r as [|d r]; simpl; lia.
  - destruct (c =? 10); [discriminate|].
    destruct (inline_close r) as [[a' b']|] eqn:E; [|discriminate].
    injection H as _ <-. simpl. specialize (IH _ eq_refl). lia.
Qed.

Lemma sub_inline_fuel_enough (f1 f2 : nat) (s : str) :
  (List.length s <= f1)%nat -> (List.length s <= f2)%nat ->
  sub_inline_fuel f1 s = sub_inline_fuel f2 s.
Proof.
  revert f2 s; induction f1 as [|n IH]; intros f2 s H1 H2.
  - destruct s; [|simpl in H1; lia]. destruct f2; reflexivity.
  - destruct s as [|c t]; [destruct f2; reflexivity|].
    destruct f2 as [|m]; [simpl in H2; lia|]. simpl in H1, H2.
    cbn [sub_inline_fuel].
    assert (Ht : sub_inline_fuel n t = sub_inline_fuel m t) by (apply IH; lia).
    destruct (prefixb DD (c :: t)); [|now rewrite Ht].
    destruct (inline_close (skipn 2 (c :: t))) as [[grp rest]|] eqn:E; [|now rewrite Ht].
    apply inline_close_length in E. rewrite length_skipn in E. simpl in E.
    rewrite (IH m); [reflexivity|lia|lia].
Qed.

(** One step of the inline substitution. *)
Lemma sub_inline_cons (c : Z) (t : str) :
  sub_inline (c :: t) =
  if prefixb DD (c :: t) then
    match inline_close (skipn 2 (c :: t)) with
    | Some (grp, rest) =>
        let* r := replace_math_symbols (PyStr grp) in
        let* t' := sub_inline rest in Some (latex_wrap r ++ t')
    | None => let* t' := sub_inline t in Some (c :: t')
    end
  else let* t' := sub_inline t in Some (c :: t').
Proof.
  unfold sub_inline. cbn [List.length sub_inline_fuel].
  destruct (prefixb DD (c :: t)); [|reflexivity].
  destruct (inline_close (skipn 2 (c :: t))) as [[grp rest]|] eqn:E; [|reflexivity].
  apply inline_close_length in E. rewrite length_skipn in E. simpl in E.
  rewrite (sub_inline_fuel_enough (List.length t) (List.length rest)); [reflexivity|lia|lia].
Qed.

Lemma prefixb_DD_other (c : Z) (t : str) : c <> 36 -> prefixb DD (c :: t) = false.
Proof.
  intros H. rewrite DD_eq. cbn [prefixb]. rewrite (proj2 (Z.eqb_neq 36 c)); [reflexivity|].
  intros E; apply H; now symmetry.
Qed.

Lemma sub_inline_copy (a r : str) :
  ~ In 36 a -> sub_inline (a ++ r) = option_map (app a) (sub_inline r).
Proof.
  induction a as [|c a IH]; intros H.
  - simpl. destruct (sub_inline r); reflexivity.
  - rewrite <- app_comm_cons, sub_inline_cons, prefixb_DD_other.
    + rewrite IH; [|intros I; apply H; now right].
      destruct (sub_inline r); reflexivity.
    + intros ->; apply H; now left.
Qed.

Lemma sub_inline_nodollar (s : str) : ~ In 36 s -> sub_inline s = Some s.
Proof.
  intros H. rewrite <- (app_nil_r s) at 1. rewrite sub_inline_copy by exact H.
  simpl. now rewrite app_nil_r.
Qed.

(** [inline_close] finds the closing [$$] of a one-line formula. *)
Lemma inline_close_formula (g post : str) :
  ~ In 36 g -> ~ In 10 g -> inline_close (g ++ DD ++ post) = Some (g, post).
Proof.
  induction g as [|c g IH]; intros H1 H2.
  - rewrite DD_eq. reflexivity.
  - rewrite <- app_comm_cons. cbn [inline_close].
    rewrite prefixb_DD_other by (intros ->; apply H1; now left).
    rewrite (proj2 (Z.eqb_neq c 10)) by (intros ->; apply H2; now left).
    rewrite IH; [reflexivity| |]; intros I; [apply H1|apply H2]; now right.
Qed.

Lemma lstrip_incl (x : Z) (l : str) : In x (lstrip l) -> In x l.
Proof.
  induction l as [|c l IH]; [tauto|]. cbn [lstrip].
  destruct (is_space c); [intros I; right; auto|tauto].
Qed.

Lemma strip_incl (x : Z) (l : str) : In x (strip l) -> In x l.
Proof.
  unfold strip. intros I. apply in_rev in I. apply lstrip_incl in I.
  apply in_rev in I. now apply lstrip_incl in I.
Qed.

Lemma str_eqb_eq (a b : str) : str_eqb a b = true <-> a = b.
Proof.
  split.
  - revert b; induction a as [|x a IH]; intros [|y b] H; try discriminate; [reflexivity|].
    simpl in H. apply andb_true_iff in H as [Hx H]. apply Z.eqb_eq in Hx. subst y.
    f_equal. now apply IH.
  - intros ->. induction b as [|y b IH]; [reflexivity|]. simpl. now rewrite Z.eqb_refl.
Qed.

(** A line without [$] is never a [$$] fence. *)
Lemma not_fence (line : str) : ~ In 36 line -> str_eqb (strip line) DD = false.
Proof.
  intros H. destruct (str_eqb (strip line) DD) eqn:E; [|reflexivity].
  apply str_eqb_eq in E. exfalso; apply H, (strip_incl 36). rewrite E, DD_eq. now left.
Qed.

Lemma block_loop_app (L1 L2 : list str) (st : block_state) :
  block_loop (L1 ++ L2) st = let* st' := block_loop L1 st in block_loop L2 st'.
Proof.
  revert st; induction L1 as [|line L1 IH]; intros st; [reflexivity|].
  cbn [app block_loop]. destruct (block_step st line); [apply IH|reflexivity].
Qed.

Lemma fold_outside (L : list str) (fl lc : list str) :
  (forall line, In line L -> ~ In 36 line) ->
  block_loop L
    {| formatted_lines := fl; in_latex_block := false; latex_content := lc |}
  = Some {| formatted_lines := fl ++ L; in_latex_block := false; latex_content := lc |}.
Proof.
  revert fl; induction L as [|line L IH]; intros fl H; [now rewrite app_nil_r|].
  cbn [block_loop]. unfold block_step at 1. cbn [in_latex_block formatted_lines latex_content].
  rewrite not_fence by (apply H; now left). simpl andb. cbn iota.
  rewrite IH; [now rewrite <- app_assoc|]. intros l I; apply H; now right.
Qed.

Lemma fold_inside (L : list str) (fl lc : list str) :
  (forall line, In line L -> ~ In 36 line) ->
  block_loop L
    {| formatted_lines := fl; in_latex_block := true; latex_content := lc |}
  = Some {| formatted_lines := fl; in_latex_block := true; latex_content := lc ++ L |}.
Proof.
  revert lc; induction L as [|line L IH]; intros lc H; [now rewrite app_nil_r|].
  cbn [block_loop]. unfold block_step at 1. cbn [in_latex_block formatted_lines latex_content].
  rewrite not_fence by (apply H; now left). simpl andb. cbn iota.
  rewrite IH; [now rewrite <- app_assoc|]. intros l I; apply H; now right.
Qed.

Lemma split_char_in (c x : Z) (s line : str) :
  In line (split_char c s) -> In x line -> In x s.
Proof.
  revert line; induction s as [|y s IH]; intros line H1 H2.
  - destruct H1 as [<-|[]]; destruct H2.
  - cbn [split_char] in H1. destruct (y =? c).
    + destruct H1 as [<-|H1]; [destruct H2|]. right; eapply IH; eauto.
    + destruct (split_char c s) as [|w ws] eqn:E.
      * destruct H1 as [<-|[]]. destruct H2 as [<-|[]]; now left.
      * destruct H1 as [<-|H1].
        -- destruct H2 as [<-|H2]; [now left|]. right; apply (IH w); [now left|exact H2].
        -- right; apply (IH line); [now right|exact H2].
Qed.

Lemma split_char_not_nil (c : Z) (s : str) : split_char c s <> [].
Proof.
  destruct s as [|y s]; [discriminate|]. cbn [split_char].
  destruct (y =? c); [discriminate|]. destruct (split_char c s); discriminate.
Qed.

(** [sep.join(s.split(sep))] gives [s] back. *)
Lemma join_split (c : Z) (s : str) : join [c] (split_char c s) = s.
Proof.
  induction s as [|y s IH]; [reflexivity|]. cbn [split_char].
  destruct (y =? c) eqn:E.
  - apply Z.eqb_eq in E; subst y.
    destruct (split_char c s) as [|w ws] eqn:Es; [now apply split_char_not_nil in Es|].
    change (join [c] ([] :: w :: ws)) with ([] ++ [c] ++ join [c] (w :: ws)).
    now rewrite IH.
  - destruct (split_char c s) as [|w ws] eqn:Es; [now apply split_char_not_nil in Es|].
    destruct ws as [|w' ws].
    + simpl in IH |- *. now rewrite IH.
    + change (join [c] ((y :: w) :: w' :: ws)) with (y :: (w ++ [c] ++ join [c] (w' :: ws))).
      change (join [c] (w :: w' :: ws)) with (w ++ [c] ++ join [c] (w' :: ws)) in IH.
      now rewrite IH.
Qed.

(** [s.split(sep)] of a join of separator-free parts gives the parts back. *)
Lemma split_char_app (c : Z) (w r : str) :
  ~ In c w -> split_char c (w ++ c :: r) = w :: split_char c r.
Proof.
  induction w as [|x w IH]; intros H.
  - simpl. now rewrite Z.eqb_refl.
  - rewrite <- app_comm_cons. cbn [split_char].
    rewrite (proj2 (Z.eqb_neq x c)) by (intros ->; apply H; now left).
    rewrite IH; [reflexivity|]. intros I; apply H; now right.
Qed.

Lemma split_char_free (c : Z) (w : str) : ~ In c w -> split_char c w = [w].
Proof.
  induction w as [|x w IH]; intros H; [reflexivity|]. cbn [split_char].
  rewrite (proj2 (Z.eqb_neq x c)) by (intros ->; apply H; now left).
  rewrite IH; [reflexivity|]. intros I; apply H; now right.
Qed.

Lemma split_join (c : Z) (L : list str) :
  L <> [] -> (forall w, In w L -> ~ In c w) -> split_char c (join [c] L) = L.
Proof.
  induction L as [|w L IH]; intros Hn H; [congruence|].
  destruct L as [|w' L].
  - simpl. apply split_char_free, H; now left.
  - change (join [c] (w :: w' :: L)) with (w ++ [c] ++ join [c] (w' :: L)).
    cbn [app]. rewrite split_char_app by (apply H; now left).
    rewrite IH; [reflexivity|discriminate|]. intros v I; apply H; now right.
Qed.

Lemma join_in (c x : Z) (L : list str) :
  In x (join [c] L) -> x = c \/ exists w, In w L /\ In x w.
Proof.
  induction L as [|w L IH]; [intros []|]. destruct L as [|w' L].
  - intros I; right; exists w; split; [now left|exact I].
  - change (join [c] (w :: w' :: L)) with (w ++ [c] ++ join [c] (w' :: L)).
    intros I. apply in_app_or in I as [I|[<-|I]].
    + right; exists w; split; [now left|exact I].
    + now left.
    + destruct (IH I) as [E|(v & Iv & Ix)]; [now left|].
      right; exists v; split; [now right|exact Ix].
Qed.

Lemma format_latex_nodollar (text : str) : ~ In 36 text -> format_latex text = Some text.
Proof.
  intros H. unfold format_latex. rewrite sub_inline_nodollar by exact H.
  rewrite fold_outside; [f_equal; apply join_split|].
  intros line I J. apply H. exact (split_char_in 10 36 text line I J).
Qed.

(** [join] around one distinguished element. *)
Lemma join_around (sep : str) (l1 : list str) (w : str) (l2 : list str) :
  join sep (l1 ++ w :: l2)
  = (match l1 with [] => [] | _ => join sep l1 ++ sep end) ++ w
    ++ (match l2 with [] => [] | _ => sep ++ join sep l2 end).
Proof.
  induction l1 as [|v l1 IH].
  - destruct l2; simpl; [now rewrite app_nil_r|reflexivity].
  - rewrite <- app_comm_cons. destruct l1 as [|v' l1].
    + destruct l2; simpl; rewrite <- ?app_assoc, ?app_nil_r; reflexivity.
    + change (join sep (v :: (v' :: l1) ++ w :: l2))
        with (v ++ sep ++ join sep ((v' :: l1) ++ w :: l2)).
      rewrite IH.
      change (join sep (v :: v' :: l1)) with (v ++ sep ++ join sep (v' :: l1)).
      now rewrite <- !app_assoc.
Qed.

Lemma glyph_sub_fuel_absent (f : nat) (g : Z) (w s : str) :
  ~ In g s -> glyph_sub_fuel f g w s = s.
Proof.
  revert s; induction f as [|n IH]; intros s H; [reflexivity|].
  destruct s as [|c t]; [reflexivity|]. cbn [glyph_sub_fuel].
  assert (Ht : glyph_sub_fuel n g w t = t) by (apply IH; intros I; apply H; now right).
  rewrite Ht. destruct (is_letter c); [|reflexivity].
  destruct (snd (span is_space t)) as [|x r2] eqn:E; [reflexivity|].
  destruct (x =? g) eqn:Ex; [|reflexivity].
  apply Z.eqb_eq in Ex; subst x. exfalso. apply H; right.
  assert (Hs : forall l, In g (snd (span is_space l)) -> In g l).
  { induction l as [|y l IHl]; [tauto|]. cbn [span].
    destruct (is_space y); [|tauto].
    destruct (span is_space l) as [a b] eqn:Es. simpl. intros I; right; apply IHl.
    rewrite ?Es; exact I. }
  apply Hs. rewrite E. now left.
Qed.

Lemma size_phrase_absent (f : nat) (s : str) :
  contains (u "size(") s = false -> size_phrase_fuel f s = s.
Proof.
  revert s; induction f as [|n IH]; intros s H; [reflexivity|].
  destruct s as [|c t]; [reflexivity|]. cbn [size_phrase_fuel].
  cbn [contains] in H. apply orb_false_iff in H as [H1 H2].
  rewrite H1, IH by exact H2. reflexivity.
Qed.

(** The characters the glyph rules of [process_math_expressions] look for. *)
Definition glyphs : str :=
  [glyph "∪"; glyph "∩"; glyph "⊂"; glyph "⊃"; glyph "∈"; glyph "∉"].

Lemma process_plain (text : str) :
  contains (u "size(") text = false -> (forall g, In g glyphs -> ~ In g text) ->
  process_math_expressions text = text.
Proof.
  intros Hs Hg. unfold process_math_expressions, glyph_sub.
  rewrite size_phrase_absent by exact Hs.
  assert (A : forall g w, In g glyphs -> glyph_sub_fuel (List.length text) g w text = text)
    by (intros g w I; apply glyph_sub_fuel_absent, Hg, I).
  repeat rewrite A by (unfold glyphs; simpl; tauto).
  reflexivity.
Qed.

End PlainFacts.

(** * [$$] fences and one-line formulas *)
Module FenceFacts.

Import PlainFacts.

(** A [$$] followed by a newline or by the end of the text opens no inline
    formula. *)
Lemma sub_inline_fence_gen (B : str) :
  (B = [] \/ exists B', B = 10 :: B') -> sub_inline (DD ++ B) = option_map (app DD) (sub_inline B).
Proof.
  intros HB. rewrite DD_eq. cbn [app]. rewrite sub_inline_cons.
  change (prefixb DD (36 :: 36 :: B)) with (prefixb [36; 36] (36 :: 36 :: B)).
  cbn [prefixb Z.eqb Pos.eqb andb]. change (skipn 2 (36 :: 36 :: B)) with B.
  assert (N : inline_close B = None).
  { destruct HB as [->|[B' ->]]; [reflexivity|]. cbn [inline_close].
    rewrite prefixb_DD_other by discriminate. reflexivity. }
  rewrite N, sub_inline_cons.
  assert (P : prefixb DD (36 :: B) = false).
  { rewrite DD_eq. destruct HB as [->|[B' ->]]; reflexivity. }
  rewrite P. destruct (sub_inline B); reflexivity.
Qed.

Lemma sub_inline_fence (B : str) :
  ~ In 36 B -> (B = [] \/ exists B', B = 10 :: B') -> sub_inline (DD ++ B) = Some (DD ++ B).
Proof.
  intros H HB. rewrite sub_inline_fence_gen by exact HB.
  rewrite sub_inline_nodollar by exact H. reflexivity.
Qed.

(** Lines that are [$$] fences or hold no [$] contain no inline formula. *)
Lemma sub_inline_fence_lines (L : list str) :
  (forall w, In w L -> w = DD \/ ~ In 36 w) -> sub_inline (join nl L) = Some (join nl L).
Proof.
  induction L as [|w L IH]; intros H; [reflexivity|].
  assert (HL : forall v, In v L -> v = DD \/ ~ In 36 v) by (intros v I; apply H; now right).
  destruct L as [|w' L].
  - cbn [join]. destruct (H w (or_introl eq_refl)) as [->|Hw].
    + rewrite <- (app_nil_r DD). rewrite sub_inline_fence_gen by (now left). reflexivity.
    + apply sub_inline_nodollar, Hw.
  - change (join nl (w :: w' :: L)) with (w ++ nl ++ join nl (w' :: L)).
    assert (Hn : sub_inline (nl ++ join nl (w' :: L)) = Some (nl ++ join nl (w' :: L))).
    { rewrite sub_inline_copy by (intros [E|[]]; discriminate).
      rewrite IH by exact HL. reflexivity. }
    destruct (H w (or_introl eq_refl)) as [->|Hw].
    + rewrite sub_inline_fence_gen by (right; eexists; reflexivity). rewrite Hn. reflexivity.
    + rewrite sub_inline_copy by exact Hw. rewrite Hn. reflexivity.
Qed.

(** A text whose lines have no [$] except one [$$] fence line that is never
    closed: the lines from the fence on are dropped. *)
Lemma format_latex_unclosed (pre post : list str) :
  (forall line, In line (pre ++ post) -> ~ In 36 line /\ ~ In 10 line) ->
  format_latex (join nl (pre ++ DD :: post)) = Some (join nl pre).
Proof.
  intros H.
  assert (Hpre : forall line, In line pre -> ~ In 36 line /\ ~ In 10 line)
    by (intros l I; apply H, in_or_app; now left).
  assert (Hpost : forall line, In line post -> ~ In 36 line /\ ~ In 10 line)
    by (intros l I; apply H, in_or_app; now right).
  unfold format_latex.
  assert (S1 : sub_inline (join nl (pre ++ DD :: post)) = Some (join nl (pre ++ DD :: post))).
  { rewrite join_around. rewrite sub_inline_copy.
    - rewrite sub_inline_fence; [reflexivity| |].
      + destruct post as [|w post]; [tauto|]. intros [E|I]; [discriminate|].
        apply join_in in I as [E|(v & Iv & Ix)]; [discriminate|].
        exact (proj1 (Hpost v Iv) Ix).
      + destruct post as [|w post]; [now left|right; eexists; reflexivity].
    - destruct pre as [|w pre]; [tauto|]. intros I. apply in_app_or in I as [I|[E|[]]];
        [|discriminate].
      apply join_in in I as [E|(v & Iv & Ix)]; [discriminate|].
      exact (proj1 (Hpre v Iv) Ix). }
  cbv beta iota zeta delta [option_map]. rewrite S1, split_join.
  - rewrite block_loop_app, fold_outside by (intros l I; apply Hpre, I).
    cbn [block_loop]. unfold block_step at 1. cbn [in_latex_block formatted_lines latex_content].
    assert (E : str_eqb (strip DD) DD = true) by (vm_compute; reflexivity).
    rewrite E. simpl andb. cbn iota.
    rewrite fold_inside by (intros l I; apply Hpost, I). reflexivity.
  - destruct pre; discriminate.
  - intros w I. apply in_app_or in I as [I|[<-|I]].
    + apply Hpre, I.
    + rewrite DD_eq. intros [E|[E|[]]]; discriminate.
    + apply Hpost, I.
Qed.

(** A one-line [$$...$$] formula after a text with no [$] makes
    [format_latex] raise. *)
Lemma format_latex_formula (pre g post : str) :
  ~ In 36 pre -> ~ In 36 g -> ~ In 10 g ->
  format_latex (pre ++ DD ++ g ++ DD ++ post) = None.
Proof.
  intros Hpre Hg Hg'. unfold format_latex at 1.
  rewrite sub_inline_copy by exact Hpre.
  rewrite DD_eq at 1. cbn [app]. rewrite sub_inline_cons.
  change (prefixb DD (36 :: 36 :: g ++ DD ++ post))
    with (prefixb [36; 36] (36 :: 36 :: g ++ DD ++ post)).
  cbn [prefixb Z.eqb Pos.eqb andb].
  change (skipn 2 (36 :: 36 :: g ++ DD ++ post)) with (g ++ DD ++ post).
  rewrite inline_close_formula by assumption. reflexivity.
Qed.

(** A closed [$$] block, in a text whose other lines hold no [$], makes
    [format_latex] raise at its closing fence. *)
Lemma format_latex_closed (pre body post : list str) :
  (forall line, In line (pre ++ body ++ post) -> ~ In 36 line /\ ~ In 10 line) ->
  format_latex (join nl (pre ++ DD :: body ++ DD :: post)) = None.
Proof.
  intros H.
  assert (HD : ~ In 10 DD) by (rewrite DD_eq; intros [E|[E|[]]]; discriminate).
  assert (HL : forall w, In w (pre ++ DD :: body ++ DD :: post) ->
                 (w = DD \/ ~ In 36 w) /\ ~ In 10 w).
  { intros w I. apply in_app_or in I as [I|[<-|I]].
    - assert (J : In w (pre ++ body ++ post)) by (apply in_or_app; now left).
      split; [right|]; apply (H w J).
    - split; [now left|exact HD].
    - apply in_app_or in I as [I|[<-|I]].
      + assert (J : In w (pre ++ body ++ post))
          by (apply in_or_app; right; apply in_or_app; now left).
        split; [right|]; apply (H w J).
      + split; [now left|exact HD].
      + assert (J : In w (pre ++ body ++ post))
          by (apply in_or_app; right; apply in_or_app; now right).
        split; [right|]; apply (H w J). }
  unfold format_latex. rewrite sub_inline_fence_lines by (intros w I; apply (HL w I)).
  cbv beta iota zeta. rewrite split_join.
  - rewrite block_loop_app, fold_outside
      by (intros l I; apply H, in_or_app; now left).
    cbn [block_loop]. unfold block_step at 1. cbn [in_latex_block formatted_lines latex_content].
    assert (E : str_eqb (strip DD) DD = true) by (vm_compute; reflexivity).
    rewrite E. simpl andb. cbn iota.
    rewrite block_loop_app, fold_inside
      by (intros l I; apply H, in_or_app; right; apply in_or_app; now left).
    cbn [block_loop]. unfold block_step at 1. cbn [in_latex_block formatted_lines latex_content].
    rewrite E. simpl andb. cbn iota. reflexivity.
  - destruct pre; discriminate.
  - intros w I. apply (HL w I).
Qed.

End FenceFacts.

(** * Open and closed sections *)
Module SectionFacts.

Lemma lazy_until_absent (e r : str) :
  contains e r = false ->
  lazy_until e r = r \/ exists r', r = r' ++ [10] /\ lazy_until e r = r'.
Proof.
  induction r as [|c t IH]; intros H; [now left|].
  cbn [contains] in H. apply orb_false_iff in H as [H1 H2].
  cbn [lazy_until]. rewrite H1.
  destruct ((c =? 10) && negb (nonempty t)) eqn:E.
  - apply andb_true_iff in E as [E1 E2]. apply Z.eqb_eq in E1; subst c.
    destruct t; [|discriminate]. right; exists []; split; reflexivity.
  - destruct (IH H2) as [->|(r' & -> & ->)]; [now left|].
    right; exists (c :: r'); split; reflexivity.
Qed.

Lemma lstrip_snoc (l : str) (c : Z) :
  is_space c = true ->
  lstrip (l ++ [c]) = match lstrip l with [] => [] | m => m ++ [c] end.
Proof.
  intros Hc; induction l as [|x l IH].
  - simpl. now rewrite Hc.
  - rewrite <- app_comm_cons. cbn [lstrip]. destruct (is_space x); [exact IH|reflexivity].
Qed.

Lemma strip_snoc_space (l : str) (c : Z) :
  is_space c = true -> strip (l ++ [c]) = strip l.
Proof.
  intros Hc. unfold strip. rewrite lstrip_snoc by exact Hc.
  destruct (lstrip l) as [|m ms] eqn:E; [reflexivity|].
  rewrite rev_app_distr. simpl (rev [c]). cbn [app lstrip]. now rewrite Hc.
Qed.

Lemma strip_lazy_absent (e r : str) :
  contains e r = false -> strip (lazy_until e r) = strip r.
Proof.
  intros H. destruct (lazy_until_absent e r H) as [->|(r' & -> & ->)]; [reflexivity|].
  symmetry; apply strip_snoc_space; reflexivity.
Qed.

Lemma lazy_until_break (e r c post : str) :
  break_at e r = Some (c, post) -> lazy_until e r = c.
Proof.
  revert c; induction r as [|x t IH]; intros c H.
  - simpl in H. destruct (prefixb e []); [now injection H as <- _|discriminate].
  - cbn [break_at] in H. cbn [lazy_until].
    destruct (prefixb e (x :: t)) eqn:Ex; [now injection H as <- _|].
    destruct (break_at e t) as [[c' post']|] eqn:Eb; [|discriminate].
    injection H as <- <-.
    destruct t as [|y t].
    + simpl in Eb. destruct (prefixb e []) eqn:Ep; [|discriminate].
      destruct e as [|a e]; simpl in Ex, Ep; discriminate.
    + simpl nonempty. rewrite andb_false_r. now rewrite (IH c').
Qed.

Lemma split_once_break (b text pre rest : str) :
  break_at b text = Some (pre, rest) -> split_once b text = [pre; rest].
Proof. intros H; unfold split_once; now rewrite H. Qed.

Lemma break_contains (e r c post : str) :
  break_at e r = Some (c, post) -> contains e r = true.
Proof.
  intros H. destruct (contains e r) eqn:E; [reflexivity|].
  rewrite break_at_none in H by exact E. discriminate.
Qed.

End SectionFacts.

(** * The sidebar across reruns *)
Module SidebarFacts.

Lemma str_eqb_refl (a : str) : str_eqb a a = true.
Proof. induction a as [|x a IH]; [reflexivity|]. simpl. now rewrite Z.eqb_refl. Qed.

Lemma opt_neq_same (m : str) : opt_neq (Some m) m = false.
Proof. simpl. now rewrite str_eqb_refl. Qed.

Lemma opt_neq_diff (m0 m : str) : m0 <> m -> opt_neq (Some m0) m = true.
Proof.
  intros H. simpl. destruct (str_eqb m0 m) eqn:E; [|reflexivity].
  apply PlainFacts.str_eqb_eq in E. contradiction.
Qed.

Lemma opt_neq_false (m0 m : str) : opt_neq (Some m0) m = false -> m0 = m.
Proof.
  simpl. destruct (str_eqb m0 m) eqn:E; [|discriminate].
  intros _. now apply PlainFacts.str_eqb_eq.
Qed.

Ltac proj := cbn [selected_model stored_prompt stored_messages warnings].

Lemma sidebar_same (m p : str) (st : app_state) (msgs : list turn) :
  selected_model st = Some m -> stored_prompt st = Some p -> stored_messages st = Some msgs ->
  sidebar m p st = st.
Proof.
  intros H1 H2 H3. unfold sidebar.
  replace (init_model m st) with st by (unfold init_model; now rewrite H1).
  replace (reset_on_model m st) with st by (unfold reset_on_model; now rewrite H1, opt_neq_same).
  replace (init_prompt p st) with st by (unfold init_prompt; now rewrite H2).
  replace (reset_on_prompt p st) with st by (unfold reset_on_prompt; now rewrite H2, opt_neq_same).
  unfold init_messages; now rewrite H3.
Qed.

(** The fields each block leaves set. *)
Lemma init_model_set (m : str) (st : app_state) :
  exists m0, selected_model (init_model m st) = Some m0.
Proof. unfold init_model. destruct (selected_model st) as [m0|] eqn:E; proj; eauto. Qed.

Lemma reset_on_model_set (m : str) (st : app_state) :
  (exists m0, selected_model st = Some m0) -> selected_model (reset_on_model m st) = Some m.
Proof.
  intros [m0 E]. unfold reset_on_model. rewrite E.
  destruct (opt_neq (Some m0) m) eqn:N; [reflexivity|].
  apply opt_neq_false in N. subst m0. exact E.
Qed.

Lemma init_prompt_set (p : str) (st : app_state) :
  selected_model (init_prompt p st) = selected_model st /\
  exists p0, stored_prompt (init_prompt p st) = Some p0.
Proof. unfold init_prompt. destruct (stored_prompt st) as [p0|] eqn:E; proj; eauto. Qed.

Lemma reset_on_prompt_set (p : str) (st : app_state) :
  (exists p0, stored_prompt st = Some p0) ->
  selected_model (reset_on_prompt p st) = selected_model st /\
  stored_prompt (reset_on_prompt p st) = Some p.
Proof.
  intros [p0 E]. unfold reset_on_prompt. rewrite E.
  destruct (opt_neq (Some p0) p) eqn:N; [proj; now split|].
  apply opt_neq_false in N. subst p0. now split.
Qed.

Lemma init_messages_set (st : app_state) :
  selected_model (init_messages st) = selected_model st /\
  stored_prompt (init_messages st) = stored_prompt st /\
  exists msgs, stored_messages (init_messages st) = Some msgs.
Proof. unfold init_messages. destruct (stored_messages st) eqn:E; proj; eauto. Qed.

Lemma sidebar_fields (m p : str) (st : app_state) :
  selected_model (sidebar m p st) = Some m /\ stored_prompt (sidebar m p st) = Some p /\
  exists msgs, stored_messages (sidebar m p st) = Some msgs.
Proof.
  unfold sidebar.
  pose proof (reset_on_model_set m _ (init_model_set m st)) as H1.
  destruct (init_prompt_set p (reset_on_model m (init_model m st))) as [H2 H3].
  destruct (reset_on_prompt_set p _ H3) as [H4 H5].
  destruct (init_messages_set (reset_on_prompt p (init_prompt p
    (reset_on_model m (init_model m st))))) as (H6 & H7 & H8).
  rewrite H6, H7, H4, H2. now split.
Qed.

Lemma sidebar_idem (m p : str) (st : app_state) :
  sidebar m p (sidebar m p st) = sidebar m p st.
Proof.
  destruct (sidebar_fields m p st) as (H1 & H2 & msgs & H3).
  exact (sidebar_same m p _ msgs H1 H2 H3).
Qed.

Lemma in_last (x : str) (l : list str) : In x (l ++ [x]).
Proof. apply in_or_app; right; now left. Qed.

(** Once the history is [Some []] with a warning shown, the later blocks keep
    both. *)
Definition cleared_with (wmsg : str) (st : app_state) : Prop :=
  stored_messages st = Some [] /\ In wmsg (warnings st).

Lemma reset_on_prompt_keeps (wmsg p : str) (st : app_state) :
  cleared_with wmsg st -> cleared_with wmsg (reset_on_prompt p st).
Proof.
  unfold cleared_with, reset_on_prompt. intros [H1 H2].
  destruct (opt_neq _ _); proj; [|now split].
  split; [reflexivity|apply in_or_app; now left].
Qed.

Lemma init_prompt_keeps (wmsg p : str) (st : app_state) :
  cleared_with wmsg st -> cleared_with wmsg (init_prompt p st).
Proof. unfold cleared_with, init_prompt. destruct (stored_prompt st); proj; tauto. Qed.

Lemma init_messages_keeps (wmsg : str) (st : app_state) :
  cleared_with wmsg st -> cleared_with wmsg (init_messages st).
Proof. unfold cleared_with, init_messages. intros [H1 H2]. rewrite H1. now split. Qed.

Lemma sidebar_model_changed (m p m0 : str) (st : app_state) :
  selected_model st = Some m0 -> m0 <> m ->
  stored_messages (sidebar m p st) = Some [] /\ In MODEL_WARNING (warnings (sidebar m p st)).
Proof.
  intros E Hm. unfold sidebar.
  apply init_messages_keeps, reset_on_prompt_keeps, init_prompt_keeps.
  replace (init_model m st) with st by (unfold init_model; now rewrite E).
  unfold cleared_with, reset_on_model. rewrite E, (opt_neq_diff m0 m Hm).
  proj. split; [reflexivity|apply in_last].
Qed.

Lemma sidebar_prompt_changed (m p p0 : str) (st : app_state) :
  stored_prompt st = Some p0 -> p0 <> p ->
  stored_messages (sidebar m p st) = Some [] /\ In PROMPT_WARNING (warnings (sidebar m p st)).
Proof.
  intros E Hp. unfold sidebar. apply init_messages_keeps.
  assert (E' : stored_prompt (reset_on_model m (init_model m st)) = Some p0).
  { unfold reset_on_model, init_model.
    destruct (selected_model st); [destruct (opt_neq _ _)|destruct (opt_neq _ _)]; proj; exact E. }
  unfold cleared_with, reset_on_prompt, init_prompt. rewrite E', E', (opt_neq_diff p0 p Hp).
  proj. split; [reflexivity|apply in_last].
Qed.

Lemma run_script_fields (m p : str) (flag : bool) (input : option (str * stream_reply))
    (st : app_state) :
  selected_model (run_script m p flag input st) = Some m /\
  stored_prompt (run_script m p flag input st) = Some p /\
  exists msgs, stored_messages (run_script m p flag input st) = Some msgs.
Proof.
  unfold run_script. destruct (sidebar_fields m p st) as (H1 & H2 & msgs & H3).
  destruct input as [[prompt reply]|]; [|eauto].
  proj. rewrite H1, H2. eauto.
Qed.

Lemma submit_stream_prefix (flag : bool) (prompt : str) (reply : stream_reply) (s : session) :
  exists rest, messages (submit_stream flag prompt reply s)
               = messages s ++ {| role_of := User; content := prompt |} :: rest.
Proof.
  unfold submit_stream.
  destruct (stream_loop _ _) as [st|]; [|exists []; reflexivity].
  destruct (format_final_response _ _ _); [|exists []; reflexivity].
  cbv beta iota zeta delta [messages].
  destruct (nonempty _); [|exists []; reflexivity].
  eexists; now rewrite <- app_assoc.
Qed.

End SidebarFacts.

(** Extra X1: [wrap_math_expressions] leaves a text unchanged when it has no
    [(], or has neither a backslash nor a caret. *)
Theorem wrap_math_expressions_plain (text : str) :
  ~ In 40 text \/ (~ In 92 text /\ ~ In 94 text) ->
  wrap_math_expressions text = text.
Proof. apply WrapFacts.wrap_identity. Qed.

Lemma wrap_math_expressions_plain_witness :
  (~ In 40 (u "f(a + b)") \/ (~ In 92 (u "f(a + b)") /\ ~ In 94 (u "f(a + b)"))) /\
  wrap_math_expressions (u "f(a + b)") = u "f(a + b)".
Proof.
  assert (H : ~ In 40 (u "f(a + b)") \/ (~ In 92 (u "f(a + b)") /\ ~ In 94 (u "f(a + b)")))
    by (right; split; vm_compute; intuition discriminate).
  split; [exact H|]. exact (wrap_math_expressions_plain _ H).
Defined.

(** Extra X2: a parenthesised span without inner parentheses that contains a
    backslash or a caret becomes [$...$] around its stripped content; the
    text before it (with no [(]) is copied and the scan resumes after it. *)
Theorem wrap_math_expressions_span (pre cand post : str) :
  ~ In 40 pre ->
  (forall x, In x cand -> x <> 40 /\ x <> 41) ->
  In 92 cand \/ In 94 cand ->
  wrap_math_expressions (pre ++ [40] ++ cand ++ [41] ++ post)
  = pre ++ [36] ++ strip cand ++ [36] ++ wrap_math_expressions post.
Proof. apply WrapFacts.wrap_span. Qed.

Lemma wrap_math_expressions_span_witness :
  wrap_math_expressions (u "area " ++ [40] ++ u " x^2 " ++ [41] ++ u " m")
  = u "area " ++ [36] ++ strip (u " x^2 ") ++ [36] ++ wrap_math_expressions (u " m").
Proof.
  apply wrap_math_expressions_span.
  - vm_compute; intuition discriminate.
  - intros x I; vm_compute in I.
    repeat (destruct I as [<-|I]; [split; discriminate|]). destruct I.
  - vm_compute; intuition.
Defined.

(** Extra X3: an opening parenthesis with no closing one after it is copied
    as is, and the scan goes on with the next character. *)
Theorem wrap_math_expressions_unmatched (t : str) :
  ~ In 41 t -> wrap_math_expressions (40 :: t) = 40 :: wrap_math_expressions t.
Proof. apply WrapFacts.wrap_unmatched. Qed.

Lemma wrap_math_expressions_unmatched_witness :
  wrap_math_expressions (40 :: u "x^2 + 1") = 40 :: wrap_math_expressions (u "x^2 + 1").
Proof. apply wrap_math_expressions_unmatched. vm_compute; intuition discriminate. Defined.

(** Extra X4: one submission of the LaTeX streaming front-end appends the user
    turn and never an assistant turn, and its final render is empty; the last
    streaming render was the wrapped reply with the cursor. *)
Theorem latex_front_end_drops_reply (prompt : str) (reply : stream_reply) (s : session) :
  let '(s', last_render, final_render) := submit_latex prompt reply s in
  messages s' = messages s ++ [{| role_of := User; content := prompt |}] /\
  final_render = [] /\
  last_render = if nonempty (List.concat (deltas reply))
                then Some (wrap_math_expressions (List.concat (deltas reply)) ++ CURSOR)
                else None.
Proof.
  destruct (LatexLoop.latex_fold (deltas reply) {| gen_full := []; latex_placeholder := None |}
              eq_refl) as [H1 H2].
  unfold LatexLoop.shows_buffer in H1. rewrite H2 in H1. cbn [gen_full app] in H1.
  unfold submit_latex. rewrite WrapFacts.wrap_nil. cbn [nonempty messages].
  split; [reflexivity|split; [reflexivity|exact H1]].
Qed.

(** Extra X5: [format_latex] returns a text without [$] unchanged. *)
Theorem format_latex_without_dollar (text : str) :
  ~ In 36 text -> format_latex text = Some text.
Proof. apply PlainFacts.format_latex_nodollar. Qed.

Lemma format_latex_without_dollar_witness :
  format_latex (u "a
 b  c") = Some (u "a
 b  c").
Proof. apply format_latex_without_dollar. vm_compute; intuition discriminate. Defined.

(** Extra X6: a [$$] fence line that is never closed drops itself and every
    line after it from the output of [format_latex]. *)
Theorem format_latex_unclosed_block (pre post : list str) :
  (forall line, In line (pre ++ post) -> ~ In 36 line /\ ~ In 10 line) ->
  format_latex (join nl (pre ++ DD :: post)) = Some (join nl pre).
Proof. apply FenceFacts.format_latex_unclosed. Qed.

Lemma format_latex_unclosed_block_witness :
  format_latex (join nl ([u "Intro"] ++ DD :: [u "x^2"; u "end"])) = Some (join nl [u "Intro"]).
Proof.
  apply format_latex_unclosed_block.
  intros line I; vm_compute in I.
  repeat (destruct I as [<-|I]; [split; vm_compute; intuition discriminate|]). destruct I.
Defined.

(** Extra X7: a one-line [$$...$$] formula after a text with no [$] makes
    [format_latex] raise: the inline substitution hands the [str] group to
    [replace_math_symbols], whose [match.group(1)] fails. *)
Theorem format_latex_inline_formula_raises (pre g post : str) :
  ~ In 36 pre -> ~ In 36 g -> ~ In 10 g ->
  format_latex (pre ++ DD ++ g ++ DD ++ post) = None.
Proof. apply FenceFacts.format_latex_formula. Qed.

Lemma format_latex_inline_formula_raises_witness :
  format_latex (u "Set " ++ DD ++ u "A \cup B" ++ DD ++ u " here") = None.
Proof. apply format_latex_inline_formula_raises; vm_compute; intuition discriminate. Defined.

(** Extra X8: [process_math_expressions] leaves a text unchanged when it has
    no [size(] and none of the six set glyphs. *)
Theorem process_math_expressions_plain (text : str) :
  contains (u "size(") text = false ->
  (forall g, In g [glyph "∪"; glyph "∩"; glyph "⊂"; glyph "⊃"; glyph "∈"; glyph "∉"] ->
             ~ In g text) ->
  process_math_expressions text = text.
Proof. apply PlainFacts.process_plain. Qed.

Lemma process_math_expressions_plain_witness :
  process_math_expressions (u "x in (0, 1)") = u "x in (0, 1)".
Proof.
  apply process_math_expressions_plain; [vm_compute; reflexivity|].
  intros g I; vm_compute in I.
  repeat (destruct I as [<-|I]; [vm_compute; intuition discriminate|]). destruct I.
Defined.

(** Extra X9: with the default (non-reasoning) prompt, a text with no [$], no
    [size(] and no set glyph is shown as is: the final response is the text
    and the streaming response is the text with the cursor. *)
Theorem plain_mode_passthrough (text : str) (is_stream_complete : bool) :
  ~ In 36 text -> contains (u "size(") text = false ->
  (forall g, In g [glyph "∪"; glyph "∩"; glyph "⊂"; glyph "⊃"; glyph "∈"; glyph "∉"] ->
             ~ In g text) ->
  format_final_response text false is_stream_complete = Some text /\
  format_streaming_response text false = Some (text ++ CURSOR).
Proof.
  intros H1 H2 H3. unfold format_final_response, format_streaming_response. cbn [negb].
  rewrite PlainFacts.format_latex_nodollar, PlainFacts.process_plain by assumption.
  split; reflexivity.
Qed.

Lemma plain_mode_passthrough_witness :
  format_final_response (u "x in (0, 1)") false true = Some (u "x in (0, 1)") /\
  format_streaming_response (u "x in (0, 1)") false = Some (u "x in (0, 1)" ++ CURSOR).
Proof.
  apply plain_mode_passthrough; [vm_compute; intuition discriminate|vm_compute; reflexivity|].
  intros g I; vm_compute in I.
  repeat (destruct I as [<-|I]; [vm_compute; intuition discriminate|]). destruct I.
Defined.

(** Extra X10: an open section (begin marker, no end marker after it): the
    streaming formatter takes all the text after the first begin marker, and
    the final formatter the same text once stripped. *)
Theorem open_section_extraction (b e text pre rest : str) :
  break_at b text = Some (pre, rest) -> contains e rest = false ->
  stream_section b e text = Some (rest, false) /\
  option_map strip (section_search b e text) = Some (strip rest).
Proof.
  intros H1 H2. split.
  - unfold stream_section. rewrite (SectionFacts.split_once_break _ _ _ _ H1).
    cbn [List.length Nat.ltb Nat.leb nth]. now rewrite H2.
  - unfold section_search. rewrite H1. cbn [option_map].
    now rewrite SectionFacts.strip_lazy_absent.
Qed.

Lemma open_section_extraction_witness :
  stream_section BEGIN_THOUGHT END_THOUGHT (BEGIN_THOUGHT ++ u "Step 1
") = Some (u "Step 1
", false) /\
  option_map strip (section_search BEGIN_THOUGHT END_THOUGHT (BEGIN_THOUGHT ++ u "Step 1
")) = Some (strip (u "Step 1
")).
Proof.
  apply (open_section_extraction _ _ _ []); vm_compute; reflexivity.
Defined.

(** Extra X11: a closed section: the streaming formatter and the final search
    both take the text between the first begin marker and the first end
    marker after it. *)
Theorem closed_section_extraction (b e text pre rest c post : str) :
  break_at b text = Some (pre, rest) -> break_at e rest = Some (c, post) ->
  stream_section b e text = Some (c, true) /\ section_search b e text = Some c.
Proof.
  intros H1 H2. split.
  - unfold stream_section. rewrite (SectionFacts.split_once_break _ _ _ _ H1).
    cbn [List.length Nat.ltb Nat.leb nth].
    rewrite (SectionFacts.break_contains _ _ _ _ H2), hd_split, H2. reflexivity.
  - unfold section_search. rewrite H1. now rewrite (SectionFacts.lazy_until_break _ _ _ _ H2).
Qed.

Lemma closed_section_extraction_witness :
  stream_section BEGIN_SOLUTION END_SOLUTION
    (u "x" ++ BEGIN_SOLUTION ++ u "42" ++ END_SOLUTION ++ u "y") = Some (u "42", true) /\
  section_search BEGIN_SOLUTION END_SOLUTION
    (u "x" ++ BEGIN_SOLUTION ++ u "42" ++ END_SOLUTION ++ u "y") = Some (u "42").
Proof.
  apply (closed_section_extraction _ _ _ (u "x") (u "42" ++ END_SOLUTION ++ u "y") _ (u "y"));
    vm_compute; reflexivity.
Defined.

(** Extra X12: rerunning the sidebar with the same model and prompt preset
    changes nothing: no history cleared, no warning added. *)
Theorem sidebar_rerun_idempotent (model_id system_prompt : str) (st : app_state) :
  sidebar model_id system_prompt (sidebar model_id system_prompt st)
  = sidebar model_id system_prompt st.
Proof. apply SidebarFacts.sidebar_idem. Qed.

(** Extra X13: when the stored model differs from the selected one, the
    sidebar empties the history and shows the model warning. *)
Theorem sidebar_model_change_clears (model_id system_prompt m0 : str) (st : app_state) :
  selected_model st = Some m0 -> m0 <> model_id ->
  stored_messages (sidebar model_id system_prompt st) = Some [] /\
  In MODEL_WARNING (warnings (sidebar model_id system_prompt st)).
Proof. apply SidebarFacts.sidebar_model_changed. Qed.

Lemma sidebar_model_change_clears_witness :
  let st := {| selected_model := Some (u "lite"); stored_prompt := Some (u "p");
               stored_messages := Some [{| role_of := User; content := u "hi" |}];
               warnings := [] |} in
  stored_messages (sidebar (u "pro") (u "p") st) = Some [] /\
  In MODEL_WARNING (warnings (sidebar (u "pro") (u "p") st)).
Proof.
  intros st. apply (sidebar_model_change_clears _ _ (u "lite")); [reflexivity|].
  intros E; vm_compute in E; discriminate.
Defined.

(** Extra X14: when the stored prompt preset differs from the selected one,
    the sidebar empties the history and shows the prompt warning. *)
Theorem sidebar_prompt_change_clears (model_id system_prompt p0 : str) (st : app_state) :
  stored_prompt st = Some p0 -> p0 <> system_prompt ->
  stored_messages (sidebar model_id system_prompt st) = Some [] /\
  In PROMPT_WARNING (warnings (sidebar model_id system_prompt st)).
Proof. apply SidebarFacts.sidebar_prompt_changed. Qed.

Lemma sidebar_prompt_change_clears_witness :
  let st := {| selected_model := Some (u "lite"); stored_prompt := Some (u "p");
               stored_messages := Some [{| role_of := User; content := u "hi" |}];
               warnings := [] |} in
  stored_messages (sidebar (u "lite") (u "q") st) = Some [] /\
  In PROMPT_WARNING (warnings (sidebar (u "lite") (u "q") st)).
Proof.
  intros st. apply (sidebar_prompt_change_clears _ _ (u "p")); [reflexivity|].
  intros E; vm_compute in E; discriminate.
Defined.

(** Extra X15: over any sequence of script runs with the same model and prompt
    preset as stored, the history only grows: the history before is a prefix
    of the history after. *)
Theorem history_append_only (m p : str) (flag : bool)
    (inputs : list (option (str * stream_reply))) (st : app_state) (msgs : list turn) :
  selected_model st = Some m -> stored_prompt st = Some p -> stored_messages st = Some msgs ->
  exists rest,
    stored_messages (fold_left (fun st i => run_script m p flag i st) inputs st)
    = Some (msgs ++ rest).
Proof.
  revert st msgs; induction inputs as [|i inputs IH]; intros st msgs H1 H2 H3.
  - exists []. simpl. now rewrite app_nil_r.
  - simpl fold_left.
    assert (Step : exists r, stored_messages (run_script m p flag i st) = Some (msgs ++ r)).
    { unfold run_script. rewrite (SidebarFacts.sidebar_same m p st msgs H1 H2 H3).
      destruct i as [[prompt reply]|]; [|exists []; now rewrite app_nil_r].
      cbn [stored_messages]. rewrite H3.
      destruct (SidebarFacts.submit_stream_prefix flag prompt reply
                  {| messages := msgs; shown_errors := [] |}) as [rest E].
      rewrite E. eexists; reflexivity. }
    destruct Step as [r Er].
    destruct (SidebarFacts.run_script_fields m p flag i st) as (F1 & F2 & _).
    destruct (IH _ (msgs ++ r) F1 F2 Er) as [rest E].
    exists (r ++ rest). rewrite E, app_assoc. reflexivity.
Qed.

Lemma history_append_only_witness :
  exists rest,
    stored_messages (fold_left (fun st i => run_script (u "lite") (u "p") true i st)
      [None; Some (u "hi", {| deltas := [u "ok"]; raises := None |})]
      {| selected_model := Some (u "lite"); stored_prompt := Some (u "p");
         stored_messages := Some [{| role_of := User; content := u "q" |}];
         warnings := [] |})
    = Some ([{| role_of := User; content := u "q" |}] ++ rest).
Proof. apply history_append_only; reflexivity. Defined.



(** Extra X17: whether a run of the streaming loop raises depends on how the
    reply is cut into fragments: a closed [$$] block that is a whole
    fragment makes its streaming render raise, while the same text with
    [y] glued to the closing fence renders. *)
Theorem stream_render_chunking_matters :
  List.concat [DD ++ nl ++ u "x" ++ nl ++ DD; u "y"]
  = List.concat [DD ++ nl ++ u "x" ++ nl ++ DD ++ u "y"] /\
  stream_render true [DD ++ nl ++ u "x" ++ nl ++ DD; u "y"] = None /\
  (exists r, stream_render true [DD ++ nl ++ u "x" ++ nl ++ DD ++ u "y"] = Some r).
Proof.
  split; [vm_compute; reflexivity|]. split; [vm_compute; reflexivity|].
  eexists. vm_compute. reflexivity.
Qed.

(** Extra X18: a closed [$$] block in a text whose other lines hold no [$]
    makes [format_latex] raise: the block loop hands the [str] [latex_str]
    to [replace_math_symbols]. *)
Theorem format_latex_closed_block_raises (pre body post : list str) :
  (forall line, In line (pre ++ body ++ post) -> ~ In 36 line /\ ~ In 10 line) ->
  format_latex (join nl (pre ++ DD :: body ++ DD :: post)) = None.
Proof. apply FenceFacts.format_latex_closed. Qed.

Lemma format_latex_closed_block_raises_witness :
  format_latex (join nl ([u "Intro"] ++ DD :: [u "x^2"] ++ DD :: [u "end"])) = None.
Proof.
  apply format_latex_closed_block_raises.
  intros line I; vm_compute in I.
  repeat (destruct I as [<-|I]; [split; vm_compute; intuition discriminate|]). destruct I.
Defined.

(** Claim C3 (as amended). In [format_streaming_response] the zone searched
    for the solution markers ([current_text]) is the text after the first
    end-of-thought marker of the buffer when a begin-of-thought marker
    occurs and an end-of-thought marker follows its first occurrence, and
    the whole buffer otherwise; the solution block is rendered from that
    zone with the same open/closed logic as the thought block.
    [format_final_response] searches the solution markers in the whole
    buffer: its solution content is the text between the first
    begin-of-solution marker and the first end-of-solution marker after it,
    wherever the end-of-thought marker is. *)
Theorem stream_solution_zone (text : str) :
  let zone :=
    match break_at BEGIN_THOUGHT text with
    | Some (_, rest) =>
        if contains END_THOUGHT rest then
          match break_at END_THOUGHT text with
          | Some (_, after) => after
          | None => text
          end
        else text
    | None => text
    end in
  (forall formatted_text current_text,
     stream_thought text = Some (formatted_text, current_text) -> current_text = zone) /\
  format_streaming_response text true
  = (let* ft := option_map fst (stream_thought text) in
     let* formatted_text := stream_solution ft zone in
     if negb (nonempty formatted_text) then
       let* formatted_text := format_latex zone in
       Some (process_math_expressions formatted_text ++ CURSOR)
     else Some (strip formatted_text ++ CURSOR)) /\
  (forall pre rest c post,
     break_at BEGIN_SOLUTION text = Some (pre, rest) ->
     break_at END_SOLUTION rest = Some (c, post) ->
     final_solution_content text = strip c).
Proof.
  intros zone.
  assert (Hz : forall ft ct, stream_thought text = Some (ft, ct) -> ct = zone).
  { intros ft ct. unfold stream_thought, zone.
    destruct (contains BEGIN_THOUGHT text) eqn:Hc.
    - destruct (break_at_contains _ _ Hc) as (pre & rest & Hb). rewrite Hb.
      unfold stream_section. rewrite (SectionFacts.split_once_break _ _ _ _ Hb).
      cbn [List.length Nat.ltb Nat.leb nth].
      destruct (contains END_THOUGHT rest) eqn:He.
      + assert (Hct : contains END_THOUGHT text = true).
        { rewrite (break_at_decomp _ _ _ _ Hb). apply contains_app_r, contains_app_r, He. }
        destruct (break_at_contains _ _ Hct) as (a & after & Ha). rewrite Ha.
        rewrite (SectionFacts.split_once_break _ _ _ _ Ha). cbn [last].
        destruct (format_latex _); [|discriminate]. intros E; injection E as _ <-.
        reflexivity.
      + destruct (format_latex rest); [|discriminate]. intros E; injection E as _ <-.
        reflexivity.
    - rewrite (break_at_none _ _ Hc). intros E; injection E as _ <-. reflexivity. }
  split; [exact Hz|]. split.
  - unfold format_streaming_response. cbv beta iota zeta delta [negb].
    destruct (stream_thought text) as [[ft ct]|] eqn:Hst; [|reflexivity].
    rewrite (Hz ft ct eq_refl). reflexivity.
  - intros pre rest c post H1 H2. unfold final_solution_content, section_search.
    rewrite H1, (SectionFacts.lazy_until_break _ _ _ _ H2). reflexivity.
Qed.

Lemma stream_solution_zone_witness :
  let text := u "<|begin_of_solution|>X<|end_of_solution|><|end_of_thought|>A<|begin_of_thought|>t<|end_of_thought|>" in
  (forall formatted_text current_text,
     stream_thought text = Some (formatted_text, current_text) ->
     current_text = u "A<|begin_of_thought|>t<|end_of_thought|>") /\
  final_solution_content text = strip (u "X").
Proof.
  intros text. pose proof (stream_solution_zone text) as Z. cbv zeta in Z.
  destruct Z as (H1 & _ & H3). split.
  - intros ft ct E. rewrite (H1 ft ct E). vm_compute. reflexivity.
  - apply (H3 [] (u "X<|end_of_solution|><|end_of_thought|>A<|begin_of_thought|>t<|end_of_thought|>")
             (u "X") (u "<|end_of_thought|>A<|begin_of_thought|>t<|end_of_thought|>"));
      vm_compute; reflexivity.
Defined.
